(** * passgen: a shallow embedding of [passgen.c] and its specification

    The C program is embedded function by function.  [int] values are [Z]
    (every value the program computes on a defined run stays far inside the
    range of [int]), [char] is [ascii], and a [char] array is a [list ascii].
    The calls of [rand()] are read from a stream of draws; accesses outside
    an array, which C leaves undefined, make the embedded function return
    [None]. *)

From Stdlib Require Import ZArith Ascii String List Lia Permutation DecimalString.
From stdpp Require Import base list strings.

Local Open Scope Z_scope.

(** ** Character arrays *)

(** A string literal of C: the characters followed by the terminating NUL. *)
Definition c_array (s : string) : list ascii :=
  list_ascii_of_string s ++ [zero].

(** [strlen]: the number of characters before the first NUL. *)
Fixpoint strlen (s : list ascii) : nat :=
  match s with
  | [] => O
  | c :: s' => if Ascii.eqb c zero then O else S (strlen s')
  end.

(** The characters of a C string: what [printf("%s")] prints. *)
Definition c_string (s : list ascii) : list ascii := take (strlen s) s.

(** Lines 9-12: the four character sets. *)
Definition UPPERCASE : list ascii := c_array "ABCDEFGHJKLMNPQRSTUVWXYZ".
Definition LOWERCASE : list ascii := c_array "abcdefghijkmnpqrstuvwxyz".
Definition NUMBERS : list ascii := c_array "23456789".
Definition SPECIAL : list ascii := c_array "!@#$%^&*()_+-=[]{}|;:,.<>?".

(** The five characters that the comment of line 8 and the banner of line 150
    name as excluded. *)
Definition similar_characters : list ascii :=
  list_ascii_of_string "0OIl1".

(** ** The monad of the embedding

    The state is the number of calls of [rand()] made so far; [None] is
    undefined behaviour (an access outside an array, a division by zero). *)

Definition M (A : Type) : Type := nat -> option (A * nat).

Definition ret {A : Type} (a : A) : M A := fun n => Some (a, n).

Definition bind {A B : Type} (m : M A) (k : A -> M B) : M B :=
  fun n => match m n with
           | Some (a, n') => k a n'
           | None => None
           end.

Definition undefined {A : Type} : M A := fun _ => None.

Notation "x <- m ;; k" := (bind m (fun x => k))
  (at level 100, m at next level, right associativity).

(** [a[i]] as an rvalue. *)
Definition load (a : list ascii) (i : Z) : M ascii :=
  if 0 <=? i then
    match a !! Z.to_nat i with
    | Some c => ret c
    | None => undefined
    end
  else undefined.

(** [a[i] = c]. *)
Definition store (a : list ascii) (i : Z) (c : ascii) : M (list ascii) :=
  if (0 <=? i) && (i <? Z.of_nat (List.length a))
  then ret (<[Z.to_nat i := c]> a)
  else undefined.

(** [a % b] on [int]: truncated remainder, undefined for [b = 0]. *)
Definition c_rem (a b : Z) : M Z :=
  if b =? 0 then undefined else ret (Z.rem a b).

Section Passgen.

(** The values that the successive calls of [rand()] return after the
    [srand] of line 138. *)
Variable draws : nat -> Z.

Definition rand : M Z := fun n => Some (draws n, S n).

(** Lines 27-30. *)
Definition get_random_char (charset : list ascii) : M ascii :=
  let len := Z.of_nat (strlen charset) in
  r <- rand ;;
  k <- c_rem r len ;;
  load charset k.

(** Lines 33-38: the loop of [shuffle_string], [i] running down to 1. *)
Fixpoint shuffle_loop (i : nat) (str : list ascii) : M (list ascii) :=
  match i with
  | O => ret str
  | S i' =>
      r <- rand ;;
      j <- c_rem r (Z.of_nat i + 1) ;;
      temp <- load str (Z.of_nat i) ;;
      c <- load str j ;;
      str <- store str (Z.of_nat i) c ;;
      str <- store str j temp ;;
      shuffle_loop i' str
  end.

(** Lines 32-39. *)
Definition shuffle_string (str : list ascii) (length : Z) : M (list ascii) :=
  shuffle_loop (Z.to_nat (length - 1)) str.

(** Lines 57-76: the body of the fill loop at index [i]. *)
Definition fill_slot (include_special : Z) (password : list ascii) (i : Z)
  : M (list ascii) :=
  charset_choice <- (if negb (include_special =? 0)
                     then r <- rand ;; c_rem r 4
                     else r <- rand ;; c_rem r 3) ;;
  match charset_choice with
  | 0 => c <- get_random_char UPPERCASE ;; store password i c
  | 1 => c <- get_random_char LOWERCASE ;; store password i c
  | 2 => c <- get_random_char NUMBERS ;; store password i c
  | 3 => c <- get_random_char SPECIAL ;; store password i c
  | _ => ret password
  end.

(** Lines 54-77: the fill loop, with [n] iterations left and [i] the index of
    the next one. *)
Fixpoint fill_loop (include_special : Z) (n : nat) (i : Z)
  (password : list ascii) : M (list ascii) :=
  match n with
  | O => ret password
  | S n' =>
      password <- fill_slot include_special password i ;;
      fill_loop include_special n' (i + 1) password
  end.

(** Lines 41-84. *)
Definition generate_password (password : list ascii)
  (length include_special : Z) : M (list ascii) :=
  let pos := 0 in
  c <- get_random_char UPPERCASE ;;
  password <- store password pos c ;;
  let pos := pos + 1 in
  c <- get_random_char LOWERCASE ;;
  password <- store password pos c ;;
  let pos := pos + 1 in
  c <- get_random_char NUMBERS ;;
  password <- store password pos c ;;
  let pos := pos + 1 in
  pp <- (if negb (include_special =? 0) && (4 <=? length)
         then c <- get_random_char SPECIAL ;;
              password <- store password pos c ;;
              ret (password, pos + 1)
         else ret (password, pos)) ;;
  let '(password, pos) := pp in
  password <- fill_loop include_special (Z.to_nat (length - pos)) pos password ;;
  password <- shuffle_string password length ;;
  store password length zero.

(** ** The command line *)

(** What one call of [getopt(argc, argv, "l:sc:h")] returns before the final
    -1: one of the four option characters (with [optarg] for [l] and [c]), or
    anything else (['?'] for an unknown option or a missing argument). *)
Inductive getopt_result : Type :=
| opt_l (optarg : string)
| opt_s
| opt_c (optarg : string)
| opt_h
| opt_other.

(** What the process leaves behind: its exit status and the text written to
    the two streams. *)
Record outcome : Type := Outcome {
  exit_code : Z;
  out : string;
  err : string
}.

(** [atoi] of the C library. *)
Variable atoi : string -> Z.

(** The indeterminate initial contents of the local array [password]. *)
Variable uninit : nat -> ascii.

Definition nl : string := String (ascii_of_nat 10) EmptyString.

(** [printf("%d")]. *)
Definition print_int (z : Z) : string := NilZero.string_of_int (Z.to_int z).

(** Lines 14-25. *)
Definition print_usage (program_name : string) : string :=
  "Usage: " +:+ program_name +:+ " [OPTIONS]" +:+ nl +:+
  "Options:" +:+ nl +:+
  "  -l LENGTH    Password length (default: 12)" +:+ nl +:+
  "  -s           Include special characters" +:+ nl +:+
  "  -c COUNT     Number of passwords to generate (default: 1)" +:+ nl +:+
  "  -h           Show this help message" +:+ nl +:+
  nl +:+ "Examples:" +:+ nl +:+
  "  " +:+ program_name +:+
  "                    # Generate 12-character password" +:+ nl +:+
  "  " +:+ program_name +:+
  " -l 16 -s           # Generate 16-character password with special chars"
  +:+ nl +:+
  "  " +:+ program_name +:+
  " -l 10 -c 5         # Generate 5 passwords of 10 characters each" +:+ nl.

Definition msg_length_min : string :=
  "Error: Password length must be at least 3" +:+ nl.
Definition msg_length_max : string :=
  "Error: Password length cannot exceed 128" +:+ nl.
Definition msg_count_min : string :=
  "Error: Count must be at least 1" +:+ nl.
Definition msg_count_max : string :=
  "Error: Count cannot exceed 100" +:+ nl.
Definition msg_special_min : string :=
  "Error: Password length must be at least 4 when using special characters"
  +:+ nl.

(** Lines 93-127: the option loop.  [inl] is a [return] from inside the loop,
    [inr] the values of [length], [include_special] and [count] when [getopt]
    returns -1. *)
Fixpoint parse_options (program_name : string) (opts : list getopt_result)
  (length include_special count : Z) : outcome + (Z * Z * Z) :=
  match opts with
  | [] => inr (length, include_special, count)
  | opt_l optarg :: opts' =>
      let length := atoi optarg in
      if length <? 3 then inl (Outcome 1 EmptyString msg_length_min)
      else if 128 <? length then inl (Outcome 1 EmptyString msg_length_max)
      else parse_options program_name opts' length include_special count
  | opt_s :: opts' =>
      parse_options program_name opts' length 1 count
  | opt_c optarg :: opts' =>
      let count := atoi optarg in
      if count <? 1 then inl (Outcome 1 EmptyString msg_count_min)
      else if 100 <? count then inl (Outcome 1 EmptyString msg_count_max)
      else parse_options program_name opts' length include_special count
  | opt_h :: _ => inl (Outcome 0 (print_usage program_name) EmptyString)
  | opt_other :: _ => inl (Outcome 1 (print_usage program_name) EmptyString)
  end.

(** Lines 143-150: the banner. *)
Definition banner (length include_special count : Z) : string :=
  "Generated password" +:+ (if 1 <? count then "s" else EmptyString) +:+ ":"
  +:+ nl +:+
  "Length: " +:+ print_int length +:+ " characters" +:+ nl +:+
  "Character sets: Uppercase, Lowercase, Numbers" +:+
  (if include_special =? 0 then EmptyString else ", Special characters") +:+
  nl +:+
  "Excluded similar characters: 0, O, I, l, 1" +:+ nl +:+ nl.

(** Line 154: [printf("%d: %s\n", i + 1, password)]. *)
Definition password_line (i : Z) (password : list ascii) : string :=
  print_int (i + 1) +:+ ": " +:+ string_of_list_ascii (c_string password)
  +:+ nl.

(** Lines 152-155: the generation loop, with [n] iterations left; [stdout] is
    the text printed so far. *)
Fixpoint generate_loop (n : nat) (i : Z) (password : list ascii)
  (length include_special : Z) (stdout : string) : M string :=
  match n with
  | O => ret stdout
  | S n' =>
      password <- generate_password password length include_special ;;
      generate_loop n' (i + 1) password length include_special
        (stdout +:+ password_line i password)
  end.

(** Lines 86-158.  The argument is the sequence of results of [getopt]; the
    result is [None] when the run has undefined behaviour. *)
Definition main (program_name : string) (opts : list getopt_result)
  : option outcome :=
  match parse_options program_name opts 12 0 1 with
  | inl o => Some o
  | inr (length, include_special, count) =>
      if negb (include_special =? 0) && (length <? 4)
      then Some (Outcome 1 EmptyString msg_special_min)
      else
        let password := map uninit (seq 0 129) in
        match generate_loop (Z.to_nat count) 0 password length include_special
                (banner length include_special count) O with
        | Some (stdout, _) => Some (Outcome 0 stdout EmptyString)
        | None => None
        end
  end.

End Passgen.

(** A decimal [atoi], for running [main] on concrete command lines. *)
Definition atoi_decimal (s : string) : Z :=
  match NilZero.int_of_string s with
  | Some d => Z.of_int d
  | None => 0
  end.

(** ** The specification side: what the draws determine *)

(** The character that a draw [r] selects in a character set. *)
Definition pick (charset : list ascii) (r : Z) : ascii :=
  nth (Z.to_nat (Z.rem r (Z.of_nat (strlen charset)))) charset zero.

(** The classes a fill slot chooses among, in the order of the [switch]. *)
Definition enabled_classes (include_special : Z) : list (list ascii) :=
  [UPPERCASE; LOWERCASE; NUMBERS] ++
  (if include_special =? 0 then [] else [SPECIAL]).

(** Every character that an enabled class offers. *)
Definition alphabet (include_special : Z) : list ascii :=
  concat (map c_string (enabled_classes include_special)).

(** The class index that a draw [r] selects. *)
Definition class_index (include_special : Z) (r : Z) : nat :=
  Z.to_nat (Z.rem r (Z.of_nat (List.length (enabled_classes include_special)))).

(** The guard of line 49. *)
Definition special_placed (length include_special : Z) : bool :=
  negb (include_special =? 0) && (4 <=? length).

(** Swapping the elements at [i] and [j]. *)
Definition swap (l : list ascii) (i j : nat) : list ascii :=
  match l !! i, l !! j with
  | Some x, Some y => <[j := x]> (<[i := y]> l)
  | _, _ => l
  end.

Section Spec.

Variable draws : nat -> Z.

(** The guaranteed characters, drawn from call [n] of [rand()] on;
    [special] tells whether the fourth one is placed. *)
Definition guaranteed (special : bool) (n : nat) : list ascii :=
  [pick UPPERCASE (draws n); pick LOWERCASE (draws (n + 1));
   pick NUMBERS (draws (n + 2))] ++
  (if special then [pick SPECIAL (draws (n + 3))] else []).

(** One fill slot: a draw for the class, the next one for the character. *)
Definition fill_char (include_special : Z) (n : nat) : ascii :=
  pick (nth (class_index include_special (draws n))
          (enabled_classes include_special) [])
       (draws (n + 1)).

(** [k] fill slots, the first one using the draws [n] and [n + 1]. *)
Definition fill_chars (include_special : Z) (n k : nat) : list ascii :=
  map (fun t => fill_char include_special (n + 2 * t)) (seq 0 k).

(** Fisher-Yates from index [i] down to 1: the element at [i] is swapped
    with the one at [draws n mod (i + 1)]. *)
Fixpoint fisher_yates (i n : nat) (l : list ascii) : list ascii :=
  match i with
  | O => l
  | S i' =>
      fisher_yates i' (S n)
        (swap l i (Z.to_nat (Z.rem (draws n) (Z.of_nat i + 1))))
  end.

(** The buffer before the shuffle: guaranteed characters, then the fill. *)
Definition unshuffled (length include_special : Z) (n : nat) : list ascii :=
  let g := guaranteed (special_placed length include_special) n in
  g ++ fill_chars include_special (n + List.length g)
         (Z.to_nat length - List.length g).

(** The number of calls of [rand()] before the shuffle. *)
Definition draws_before_shuffle (length include_special : Z) : nat :=
  let g := if special_placed length include_special then 4%nat else 3%nat in
  (g + 2 * (Z.to_nat length - g))%nat.

(** The password, as the draws from [n] on determine it. *)
Definition password_of (length include_special : Z) (n : nat) : list ascii :=
  fisher_yates (Z.to_nat (length - 1))
    (n + draws_before_shuffle length include_special)
    (take (Z.to_nat length) (unshuffled length include_special n)).

(** The number of calls of [rand()] in one [generate_password]. *)
Definition draws_used (length include_special : Z) : nat :=
  (draws_before_shuffle length include_special + Z.to_nat (length - 1))%nat.

End Spec.

(** The lines of the passwords [pws], numbered from [i] on. *)
Fixpoint numbered_lines (i : Z) (pws : list (list ascii)) : string :=
  match pws with
  | [] => EmptyString
  | p :: pws' =>
      print_int i +:+ ": " +:+ string_of_list_ascii p +:+ nl +:+
      numbered_lines (i + 1) pws'
  end.

(** The passwords of [count] successive calls of [generate_password], the
    first one starting at draw [n]. *)
Definition passwords_of (draws : nat -> Z) (length include_special : Z)
  (n count : nat) : list (list ascii) :=
  map (fun t => password_of draws length include_special
                  (n + t * draws_used length include_special))
      (seq 0 count).

Section CommandLine.

Variable atoi : string -> Z.

(** An option that the option loop accepts: [-s], [-l] with a length in
    [3,128], [-c] with a count in [1,100]. *)
Definition valid_option (o : getopt_result) : bool :=
  match o with
  | opt_l optarg => (3 <=? atoi optarg) && (atoi optarg <=? 128)
  | opt_s => true
  | opt_c optarg => (1 <=? atoi optarg) && (atoi optarg <=? 100)
  | opt_h | opt_other => false
  end.

(** The effective length: that of the last [-l], 12 without one. *)
Definition effective_length (opts : list getopt_result) : Z :=
  fold_left (fun len o => match o with opt_l optarg => atoi optarg | _ => len end)
    opts 12.

(** The effective count: that of the last [-c], 1 without one. *)
Definition effective_count (opts : list getopt_result) : Z :=
  fold_left (fun cnt o => match o with opt_c optarg => atoi optarg | _ => cnt end)
    opts 1.

End CommandLine.

Definition is_opt_s (o : getopt_result) : bool :=
  match o with opt_s => true | _ => false end.

(** The special-character flag: 1 when [-s] is given. *)
Definition special_requested (opts : list getopt_result) : Z :=
  if existsb is_opt_s opts then 1 else 0.

(** A valid policy (section 3 of the specification). *)
Definition valid_policy (length include_special : Z) : Prop :=
  3 <= length <= 128 /\ (include_special <> 0 -> 4 <= length).

(** A password has a character of the class [charset]. *)
Definition has_class (password charset : list ascii) : Prop :=
  exists c, In c password /\ In c (c_string charset).

(** A stream of draws and a 129-byte buffer to run the program on. *)
Definition test_draws (n : nat) : Z := Z.of_nat (7 * n * n + 3 * n + 11).
Definition test_buffer : list ascii := repeat "~"%char 129.
Definition test_uninit (n : nat) : ascii := "~"%char.


(** Other initial contents for the array [password]. *)
Definition test_uninit2 (n : nat) : ascii := ascii_of_nat n.

(** The 256 characters. *)
Definition all_ascii : list ascii := map ascii_of_nat (seq 0 256).

(** A character between [lo] and [hi] in the order of the codes. *)
Definition between (lo hi c : ascii) : bool :=
  (nat_of_ascii lo <=? nat_of_ascii c)%nat &&
  (nat_of_ascii c <=? nat_of_ascii hi)%nat.

(** A printable character other than the space: codes 33 to 126. *)
Definition printable (c : ascii) : bool := between "!" "~" c.

(** ** Basic facts *)

Lemma bind_Some {A B : Type} (m : M A) (k : A -> M B) n a n' :
  m n = Some (a, n') -> bind m k n = k a n'.
Proof. intros H. unfold bind. now rewrite H. Qed.

Lemma string_app_assoc (a b c : string) :
  (a +:+ b) +:+ c = a +:+ (b +:+ c).
Proof.
  induction a as [|x a IH]; [reflexivity|].
  change (String x ((a +:+ b) +:+ c) = String x (a +:+ (b +:+ c))).
  f_equal. exact IH.
Qed.

Lemma string_app_empty_r (a : string) : a +:+ EmptyString = a.
Proof.
  induction a as [|x a IH]; [reflexivity|].
  change (String x (a +:+ EmptyString) = String x a).
  f_equal. exact IH.
Qed.

Lemma strlen_le (s : list ascii) : (strlen s <= List.length s)%nat.
Proof.
  induction s as [|c s IH]; simpl; [lia|].
  destruct (Ascii.eqb c zero); lia.
Qed.

Lemma strlen_app_zero (p t : list ascii) :
  Forall (fun c => c <> zero) p -> strlen (p ++ zero :: t) = List.length p.
Proof.
  induction 1 as [|c p Hc _ IH]; simpl; [reflexivity|].
  destruct (Ascii.eqb_spec c zero); [contradiction|]. now rewrite IH.
Qed.

Lemma c_string_app_zero (p t : list ascii) :
  Forall (fun c => c <> zero) p -> c_string (p ++ zero :: t) = p.
Proof.
  intros H. unfold c_string. rewrite strlen_app_zero by exact H.
  now rewrite take_app_length.
Qed.

Lemma c_string_nonzero (s : list ascii) : Forall (fun c => c <> zero) (c_string s).
Proof.
  unfold c_string. induction s as [|c s IH]; simpl; [constructor|].
  destruct (Ascii.eqb_spec c zero); simpl; constructor; assumption.
Qed.

Lemma c_string_In (s : list ascii) (c : ascii) :
  In c (c_string s) -> In c s.
Proof.
  intros H. rewrite <- (take_drop (strlen s) s). apply in_or_app. now left.
Qed.

Lemma load_eq (a : list ascii) (i : nat) c n :
  a !! i = Some c -> load a (Z.of_nat i) n = Some (c, n).
Proof.
  intros H. unfold load.
  destruct (Z.leb_spec 0 (Z.of_nat i)); [|lia].
  now rewrite Nat2Z.id, H.
Qed.

Lemma store_eq (a : list ascii) (i : nat) c n :
  (i < List.length a)%nat ->
  store a (Z.of_nat i) c n = Some (<[i := c]> a, n).
Proof.
  intros H. unfold store.
  destruct (Z.leb_spec 0 (Z.of_nat i)); [|lia].
  destruct (Z.ltb_spec (Z.of_nat i) (Z.of_nat (List.length a))); [|lia].
  simpl. now rewrite Nat2Z.id.
Qed.

Lemma store_out_of_bounds (a : list ascii) (i : Z) c n :
  Z.of_nat (List.length a) <= i -> store a i c n = None.
Proof.
  intros H. unfold store.
  destruct (Z.ltb_spec i (Z.of_nat (List.length a))); [lia|].
  now rewrite andb_false_r.
Qed.

Lemma rem_index (r m : Z) :
  0 <= r -> 0 < m ->
  Z.rem r m = Z.of_nat (Z.to_nat (Z.rem r m)) /\
  (Z.to_nat (Z.rem r m) < Z.to_nat m)%nat.
Proof.
  intros Hr Hm. pose proof (Z.rem_bound_pos r m Hr Hm). lia.
Qed.

Lemma pick_lookup (charset : list ascii) (r : Z) :
  0 <= r -> (0 < strlen charset)%nat ->
  charset !! Z.to_nat (Z.rem r (Z.of_nat (strlen charset)))
  = Some (pick charset r).
Proof.
  intros Hr Hlen. unfold pick.
  destruct (rem_index r (Z.of_nat (strlen charset))) as [_ Hlt]; [lia..|].
  pose proof (strlen_le charset).
  rewrite nth_lookup.
  destruct (lookup_lt_is_Some_2 charset
              (Z.to_nat (Z.rem r (Z.of_nat (strlen charset))))) as [c Hc];
    [lia|].
  now rewrite Hc.
Qed.

Lemma pick_In (charset : list ascii) (r : Z) :
  0 <= r -> (0 < strlen charset)%nat -> In (pick charset r) (c_string charset).
Proof.
  intros Hr Hlen. pose proof (pick_lookup charset r Hr Hlen) as H.
  destruct (rem_index r (Z.of_nat (strlen charset))) as [_ Hlt]; [lia..|].
  apply list_elem_of_In, list_elem_of_lookup.
  exists (Z.to_nat (Z.rem r (Z.of_nat (strlen charset)))).
  unfold c_string. rewrite lookup_take_lt by lia. exact H.
Qed.

Lemma swap_Permutation (l : list ascii) (i j : nat) : Permutation (swap l i j) l.
Proof.
  unfold swap.
  destruct (l !! i) as [x|] eqn:Hi; [|reflexivity].
  destruct (l !! j) as [y|] eqn:Hj; [|reflexivity].
  now apply Permutation_insert_swap.
Qed.

Lemma swap_length (l : list ascii) (i j : nat) :
  List.length (swap l i j) = List.length l.
Proof. apply Permutation_length, swap_Permutation. Qed.

Lemma swap_app (a b : list ascii) (i j : nat) :
  (i < List.length a)%nat -> (j < List.length a)%nat ->
  swap (a ++ b) i j = swap a i j ++ b.
Proof.
  intros Hi Hj. unfold swap.
  rewrite !lookup_app_l by assumption.
  destruct (lookup_lt_is_Some_2 a i Hi) as [x ->].
  destruct (lookup_lt_is_Some_2 a j Hj) as [y ->].
  rewrite (insert_app_l a b i) by assumption.
  rewrite insert_app_l by (now rewrite length_insert).
  reflexivity.
Qed.

Lemma insert_at_length (g rest : list ascii) (r c : ascii) :
  <[List.length g := c]> (g ++ r :: rest) = g ++ c :: rest.
Proof.
  rewrite insert_app_r_alt by lia. now rewrite Nat.sub_diag.
Qed.

(** ** Runs of the embedded functions *)

Section Runs.

Variable draws : nat -> Z.

(** [rand()] returns a value between 0 and [RAND_MAX]. *)
Hypothesis draws_nonneg : forall n, 0 <= draws n.

Lemma get_random_char_eq (charset : list ascii) (n : nat) :
  (0 < strlen charset)%nat ->
  get_random_char draws charset n = Some (pick charset (draws n), S n).
Proof.
  intros Hlen. unfold get_random_char, bind, rand, c_rem.
  destruct (Z.eqb_spec (Z.of_nat (strlen charset)) 0); [lia|].
  unfold ret.
  destruct (rem_index (draws n) (Z.of_nat (strlen charset))) as [He _];
    [auto|lia|].
  rewrite He. apply load_eq, pick_lookup; auto.
Qed.

Lemma fisher_yates_Permutation (i n : nat) (l : list ascii) :
  Permutation (fisher_yates draws i n l) l.
Proof.
  revert n l. induction i as [|i IH]; intros n l; simpl; [reflexivity|].
  rewrite IH. apply swap_Permutation.
Qed.

Lemma fisher_yates_length (i n : nat) (l : list ascii) :
  List.length (fisher_yates draws i n l) = List.length l.
Proof. apply Permutation_length, fisher_yates_Permutation. Qed.

Lemma fisher_yates_app (i n : nat) (a b : list ascii) :
  (i < List.length a)%nat ->
  fisher_yates draws i n (a ++ b) = fisher_yates draws i n a ++ b.
Proof.
  revert n a. induction i as [|i IH]; intros n a Hi; simpl; [reflexivity|].
  destruct (rem_index (draws n) (Z.of_nat (S i) + 1)) as [_ Hj]; [auto|lia|].
  rewrite swap_app by lia.
  apply IH. rewrite swap_length. lia.
Qed.

(** A step of the shuffle loop is a swap; no access leaves the array. *)
Lemma shuffle_loop_eq (i n : nat) (str : list ascii) :
  (i < List.length str)%nat ->
  shuffle_loop draws i str n = Some (fisher_yates draws i n str, (n + i)%nat).
Proof.
  revert n str. induction i as [|i IH]; intros n str Hi.
  - simpl. unfold ret. do 2 f_equal. lia.
  - cbn [shuffle_loop fisher_yates].
    destruct (rem_index (draws n) (Z.of_nat (S i) + 1)) as [He Hj];
      [auto|lia|].
    set (j := Z.to_nat (Z.rem (draws n) (Z.of_nat (S i) + 1))) in *.
    destruct (lookup_lt_is_Some_2 str (S i) Hi) as [x Hx].
    destruct (lookup_lt_is_Some_2 str j) as [y Hy]; [lia|].
    unfold bind at 1. unfold rand.
    unfold bind at 1. unfold c_rem.
    destruct (Z.eqb_spec (Z.of_nat (S i) + 1) 0); [lia|]. unfold ret at 1.
    rewrite (bind_Some _ _ _ _ _ (load_eq str (S i) x (S n) Hx)).
    rewrite He.
    rewrite (bind_Some _ _ _ _ _ (load_eq str j y (S n) Hy)).
    rewrite (bind_Some _ _ _ _ _ (store_eq str (S i) y (S n) Hi)).
    erewrite bind_Some; [|apply store_eq; rewrite length_insert; lia].
    replace (<[j := x]> (<[S i := y]> str)) with (swap str (S i) j)
      by (unfold swap; now rewrite Hx, Hy).
    rewrite IH by (rewrite swap_length; lia).
    do 2 f_equal. lia.
Qed.

Lemma store_eq_Z (a : list ascii) (i : Z) c n :
  0 <= i < Z.of_nat (List.length a) ->
  store a i c n = Some (<[Z.to_nat i := c]> a, n).
Proof.
  intros H. rewrite <- (Z2Nat.id i) at 1 by lia. apply store_eq. lia.
Qed.

Lemma strlen_UPPERCASE : strlen UPPERCASE = 24%nat.
Proof. reflexivity. Qed.
Lemma strlen_LOWERCASE : strlen LOWERCASE = 24%nat.
Proof. reflexivity. Qed.
Lemma strlen_NUMBERS : strlen NUMBERS = 8%nat.
Proof. reflexivity. Qed.
Lemma strlen_SPECIAL : strlen SPECIAL = 26%nat.
Proof. reflexivity. Qed.

Lemma get_UPPERCASE n :
  get_random_char draws UPPERCASE n = Some (pick UPPERCASE (draws n), S n).
Proof. apply get_random_char_eq. rewrite strlen_UPPERCASE. lia. Qed.
Lemma get_LOWERCASE n :
  get_random_char draws LOWERCASE n = Some (pick LOWERCASE (draws n), S n).
Proof. apply get_random_char_eq. rewrite strlen_LOWERCASE. lia. Qed.
Lemma get_NUMBERS n :
  get_random_char draws NUMBERS n = Some (pick NUMBERS (draws n), S n).
Proof. apply get_random_char_eq. rewrite strlen_NUMBERS. lia. Qed.
Lemma get_SPECIAL n :
  get_random_char draws SPECIAL n = Some (pick SPECIAL (draws n), S n).
Proof. apply get_random_char_eq. rewrite strlen_SPECIAL. lia. Qed.

(** One fill slot: two draws, one store. *)
Lemma fill_slot_eq (include_special : Z) (password : list ascii) (i n : nat) :
  (i < List.length password)%nat ->
  fill_slot draws include_special password (Z.of_nat i) n
  = Some (<[i := fill_char draws include_special n]> password, (n + 2)%nat).
Proof.
  intros Hi. unfold fill_slot, fill_char, class_index, enabled_classes.
  replace (n + 2)%nat with (S (S n)) by lia.
  replace (n + 1)%nat with (S n) by lia.
  unfold bind at 1.
  destruct (Z.eqb_spec include_special 0) as [Hs|Hs];
    cbn [List.length app negb]; unfold bind at 1, rand, c_rem;
    cbn [Z.eqb]; unfold ret at 1.
  - pose proof (Z.rem_bound_pos (draws n) 3 (draws_nonneg n) eq_refl) as Hb.
    change (Z.of_nat 3) with 3.
    assert (Z.rem (draws n) 3 = 0 \/ Z.rem (draws n) 3 = 1 \/
            Z.rem (draws n) 3 = 2) as [-> | [-> | ->]] by lia;
      cbn [Z.to_nat Pos.to_nat Pos.iter_op Nat.add nth].
    + rewrite (bind_Some _ _ _ _ _ (get_UPPERCASE (S n))). now apply store_eq.
    + rewrite (bind_Some _ _ _ _ _ (get_LOWERCASE (S n))). now apply store_eq.
    + rewrite (bind_Some _ _ _ _ _ (get_NUMBERS (S n))). now apply store_eq.
  - pose proof (Z.rem_bound_pos (draws n) 4 (draws_nonneg n) eq_refl) as Hb.
    change (Z.of_nat 4) with 4.
    assert (Z.rem (draws n) 4 = 0 \/ Z.rem (draws n) 4 = 1 \/
            Z.rem (draws n) 4 = 2 \/ Z.rem (draws n) 4 = 3)
      as [-> | [-> | [-> | ->]]] by lia;
      cbn [Z.to_nat Pos.to_nat Pos.iter_op Nat.add nth].
    + rewrite (bind_Some _ _ _ _ _ (get_UPPERCASE (S n))). now apply store_eq.
    + rewrite (bind_Some _ _ _ _ _ (get_LOWERCASE (S n))). now apply store_eq.
    + rewrite (bind_Some _ _ _ _ _ (get_NUMBERS (S n))). now apply store_eq.
    + rewrite (bind_Some _ _ _ _ _ (get_SPECIAL (S n))). now apply store_eq.
Qed.

Lemma fill_chars_S (include_special : Z) (n k : nat) :
  fill_chars draws include_special n (S k)
  = fill_char draws include_special n
    :: fill_chars draws include_special (n + 2) k.
Proof.
  unfold fill_chars. rewrite <- cons_seq, <- seq_shift. cbn [map].
  rewrite List.map_map.
  replace (n + 2 * 0)%nat with n by lia. f_equal.
  apply map_ext. intros t. f_equal. lia.
Qed.

Lemma fill_chars_length (include_special : Z) (n k : nat) :
  List.length (fill_chars draws include_special n k) = k.
Proof. unfold fill_chars. now rewrite length_map, length_seq. Qed.

(** The fill loop writes [k] fill characters after the prefix [g]. *)
Lemma fill_loop_eq (include_special : Z) (k : nat) :
  forall (g rest : list ascii) (n : nat),
  (k <= List.length rest)%nat ->
  fill_loop draws include_special k (Z.of_nat (List.length g)) (g ++ rest) n
  = Some (g ++ fill_chars draws include_special n k ++ drop k rest,
          (n + 2 * k)%nat).
Proof.
  induction k as [|k IH]; intros g rest n Hk.
  - simpl. unfold ret. rewrite drop_0. do 2 f_equal. lia.
  - destruct rest as [|r rest]; [simpl in Hk; lia|]. simpl in Hk.
    cbn [fill_loop].
    erewrite bind_Some;
      [|apply fill_slot_eq; rewrite length_app; simpl; lia].
    rewrite insert_at_length.
    replace (Z.of_nat (List.length g) + 1)
      with (Z.of_nat (List.length (g ++ [fill_char draws include_special n])))
      by (rewrite length_app; simpl; lia).
    rewrite (cons_middle _ g rest), app_assoc.
    rewrite IH by lia.
    rewrite fill_chars_S, <- app_assoc. cbn [app drop].
    do 2 f_equal. lia.
Qed.

Lemma fisher_yates_take (i n k : nat) (l : list ascii) :
  (i < k)%nat \/ i = O ->
  fisher_yates draws i n l = fisher_yates draws i n (take k l) ++ drop k l.
Proof.
  intros [Hi | ->]; [|simpl; now rewrite take_drop].
  destruct (Nat.le_gt_cases k (List.length l)) as [Hk|Hk].
  - rewrite <- (take_drop k l) at 1. apply fisher_yates_app.
    rewrite length_take. lia.
  - rewrite take_ge, drop_ge by lia. now rewrite app_nil_r.
Qed.

(** The fill, the shuffle and the final NUL, after a prefix [g] of guaranteed
    characters has been written. *)
Lemma fill_shuffle_terminate (g rest : list ascii) (length include_special : Z)
  (m : nat) :
  let k := (Z.to_nat length - List.length g)%nat in
  let pre := g ++ fill_chars draws include_special m k in
  0 <= length ->
  (Z.to_nat length < List.length g + List.length rest)%nat ->
  (password <- fill_loop draws include_special
                 (Z.to_nat (length - Z.of_nat (List.length g)))
                 (Z.of_nat (List.length g)) (g ++ rest) ;;
   password <- shuffle_string draws password length ;;
   store password length zero) m
  = Some (fisher_yates draws (Z.to_nat (length - 1)) (m + 2 * k)
            (take (Z.to_nat length) pre) ++
          zero :: drop (S (Z.to_nat length)) (pre ++ drop k rest),
          (m + 2 * k + Z.to_nat (length - 1))%nat).
Proof.
  intros k pre HL Hlen.
  replace (Z.to_nat (length - Z.of_nat (List.length g))) with k by lia.
  erewrite bind_Some; [|apply fill_loop_eq; lia].
  rewrite app_assoc. fold pre.
  assert (List.length pre = (List.length g + k)%nat) as Hpre
    by (unfold pre; now rewrite length_app, fill_chars_length).
  assert (List.length (pre ++ drop k rest)
          = (List.length g + List.length rest)%nat) as Hfull
    by (rewrite length_app, length_drop, Hpre; lia).
  unfold shuffle_string.
  erewrite bind_Some; [|apply shuffle_loop_eq; lia].
  rewrite store_eq_Z by (rewrite fisher_yates_length; lia).
  do 2 f_equal.
  rewrite (fisher_yates_take _ _ (Z.to_nat length)) by lia.
  rewrite take_app_le by lia.
  destruct (lookup_lt_is_Some_2 (pre ++ drop k rest) (Z.to_nat length))
    as [x Hx]; [lia|].
  rewrite (drop_S _ _ _ Hx).
  set (pw := fisher_yates draws _ _ _).
  assert (List.length pw = Z.to_nat length) as <-
    by (unfold pw; rewrite fisher_yates_length, length_take; lia).
  apply insert_at_length.
Qed.

Lemma unshuffled_length (length include_special : Z) (n : nat) :
  List.length (unshuffled draws length include_special n)
  = ((if special_placed length include_special then 4 else 3)
     `max` Z.to_nat length)%nat.
Proof.
  unfold unshuffled, guaranteed.
  rewrite !length_app, fill_chars_length.
  destruct (special_placed length include_special); simpl; lia.
Qed.

(** What one call of [generate_password] does on a buffer that can hold the
    guaranteed characters and [length] characters with their NUL: it returns,
    the buffer holds the password determined by the draws, then a NUL. *)
Lemma generate_password_run (buf : list ascii) (length include_special : Z)
  (n : nat) :
  0 <= length -> (Z.to_nat length < List.length buf)%nat ->
  (3 <= List.length buf)%nat ->
  generate_password draws buf length include_special n
  = Some (password_of draws length include_special n ++
          zero :: drop (S (Z.to_nat length))
                    (unshuffled draws length include_special n ++
                     drop (List.length
                             (unshuffled draws length include_special n)) buf),
          (n + draws_used length include_special)%nat).
Proof.
  intros HL Hbuf H3.
  pose proof (unshuffled_length length include_special n) as Hlen.
  unfold password_of, draws_used, draws_before_shuffle in *.
  unfold unshuffled, guaranteed in *.
  destruct buf as [|b0 [|b1 [|b2 rest]]]; simpl in H3; try lia.
  unfold generate_password.
  rewrite (bind_Some _ _ _ _ _ (get_UPPERCASE n)).
  erewrite bind_Some; [|apply store_eq_Z; simpl; lia].
  rewrite (bind_Some _ _ _ _ _ (get_LOWERCASE (S n))).
  erewrite bind_Some; [|apply store_eq_Z; simpl; lia].
  rewrite (bind_Some _ _ _ _ _ (get_NUMBERS (S (S n)))).
  erewrite bind_Some; [|apply store_eq_Z; simpl; lia].
  cbn [Z.to_nat Z.add Pos.to_nat Pos.iter_op Nat.add Pos.add Pos.succ
       insert list_insert].
  replace (n + 1)%nat with (S n) in * by lia.
  replace (n + 2)%nat with (S (S n)) in * by lia.
  replace (n + 3)%nat with (S (S (S n))) in * by lia.
  fold (special_placed length include_special).
  destruct (special_placed length include_special) eqn:Hg.
  - assert (4 <= length) as H4 by (unfold special_placed in Hg; lia).
    destruct rest as [|b3 rest]; [simpl in Hbuf; lia|].
    unfold bind at 1.
    rewrite (bind_Some _ _ _ _ _ (get_SPECIAL (S (S (S n))))).
    erewrite bind_Some; [|apply store_eq_Z; simpl; lia].
    unfold ret at 1.
    etransitivity.
    { apply (fill_shuffle_terminate
               [pick UPPERCASE (draws n); pick LOWERCASE (draws (S n));
                pick NUMBERS (draws (S (S n)));
                pick SPECIAL (draws (S (S (S n))))] rest);
        [exact HL|simpl in *; lia]. }
    cbn [List.length app].
    replace (Z.to_nat length - 4 - 0)%nat with (Z.to_nat length - 4)%nat
      by lia.
    replace (n + 4)%nat with (S (S (S (S n)))) by lia.
    replace (n + (4 + 2 * (Z.to_nat length - 4)))%nat
      with (S (S (S (S n))) + 2 * (Z.to_nat length - 4))%nat by lia.
    rewrite fill_chars_length. cbn [drop].
    do 2 f_equal. lia.
  - unfold bind at 1. unfold ret at 1.
    etransitivity.
    { apply (fill_shuffle_terminate
               [pick UPPERCASE (draws n); pick LOWERCASE (draws (S n));
                pick NUMBERS (draws (S (S n)))] rest);
        [exact HL|simpl in *; lia]. }
    cbn [List.length app].
    replace (n + 3)%nat with (S (S (S n))) by lia.
    replace (n + (3 + 2 * (Z.to_nat length - 3)))%nat
      with (S (S (S n)) + 2 * (Z.to_nat length - 3))%nat by lia.
    rewrite fill_chars_length. cbn [drop].
    do 2 f_equal. lia.
Qed.

(** *** Where the characters come from *)

Lemma enabled_classes_nonempty (include_special : Z) :
  Forall (fun cs => (0 < strlen cs)%nat) (enabled_classes include_special).
Proof.
  unfold enabled_classes.
  destruct (include_special =? 0); repeat constructor.
Qed.

Lemma class_index_lt (include_special : Z) (r : Z) :
  0 <= r ->
  (class_index include_special r
   < List.length (enabled_classes include_special))%nat.
Proof.
  intros Hr. unfold class_index.
  set (m := List.length (enabled_classes include_special)).
  assert (0 < m)%nat
    by (unfold m, enabled_classes; rewrite length_app; simpl; lia).
  destruct (rem_index r (Z.of_nat m)); [lia..|]. lia.
Qed.

Lemma class_In_alphabet (include_special : Z) (cs : list ascii) (c : ascii) :
  In cs (enabled_classes include_special) -> In c (c_string cs) ->
  In c (alphabet include_special).
Proof.
  intros Hcs Hc. unfold alphabet. apply in_concat.
  exists (c_string cs). split; [now apply in_map|exact Hc].
Qed.

Lemma fill_char_In (include_special : Z) (n : nat) :
  In (fill_char draws include_special n) (alphabet include_special).
Proof.
  unfold fill_char.
  pose proof (class_index_lt include_special (draws n) (draws_nonneg n)) as Hk.
  set (cs := nth _ (enabled_classes include_special) []).
  assert (In cs (enabled_classes include_special)) as Hcs
    by (apply nth_In; exact Hk).
  apply (class_In_alphabet _ cs); [exact Hcs|].
  apply pick_In; [auto|].
  pose proof (enabled_classes_nonempty include_special) as Hne.
  rewrite List.Forall_forall in Hne. now apply Hne.
Qed.

Lemma UPPERCASE_enabled (include_special : Z) :
  In UPPERCASE (enabled_classes include_special).
Proof. unfold enabled_classes. apply in_or_app. left. left. reflexivity. Qed.

Lemma LOWERCASE_enabled (include_special : Z) :
  In LOWERCASE (enabled_classes include_special).
Proof.
  unfold enabled_classes. apply in_or_app. left. right. left. reflexivity.
Qed.

Lemma NUMBERS_enabled (include_special : Z) :
  In NUMBERS (enabled_classes include_special).
Proof.
  unfold enabled_classes. apply in_or_app. left. right. right. left.
  reflexivity.
Qed.

Lemma SPECIAL_enabled (include_special : Z) :
  include_special <> 0 -> In SPECIAL (enabled_classes include_special).
Proof.
  intros Hs. unfold enabled_classes. apply in_or_app. right.
  destruct (Z.eqb_spec include_special 0); [contradiction|].
  left. reflexivity.
Qed.

Lemma enabled_classes_among (include_special : Z) (cs : list ascii) :
  In cs (enabled_classes include_special) ->
  In cs [UPPERCASE; LOWERCASE; NUMBERS; SPECIAL].
Proof.
  unfold enabled_classes. intros H. apply in_app_or in H as [H|H].
  - destruct H as [<-|[<-|[<-|[]]]];
      [left|right; left|right; right; left]; reflexivity.
  - destruct (include_special =? 0); [destruct H|].
    destruct H as [<-|[]]. right. right. right. left. reflexivity.
Qed.

Lemma alphabet_excludes (c : ascii) (include_special : Z) (x : ascii) :
  forallb (fun cs => negb (existsb (Ascii.eqb c) cs))
    [UPPERCASE; LOWERCASE; NUMBERS; SPECIAL] = true ->
  In x (alphabet include_special) -> x <> c.
Proof.
  intros Hall Hx ->. unfold alphabet in Hx.
  apply in_concat in Hx as [l [Hl Hc]].
  apply in_map_iff in Hl as [cs [<- Hcs]].
  apply enabled_classes_among in Hcs. apply c_string_In in Hc.
  rewrite forallb_forall in Hall. specialize (Hall _ Hcs).
  apply negb_true_iff in Hall.
  assert (existsb (Ascii.eqb c) cs = true) as Hex
    by (apply existsb_exists; exists c; split;
        [exact Hc|apply Ascii.eqb_refl]).
  congruence.
Qed.

Lemma pick_UPPERCASE r : 0 <= r -> In (pick UPPERCASE r) (c_string UPPERCASE).
Proof. intros. apply pick_In; [auto|rewrite strlen_UPPERCASE; lia]. Qed.
Lemma pick_LOWERCASE r : 0 <= r -> In (pick LOWERCASE r) (c_string LOWERCASE).
Proof. intros. apply pick_In; [auto|rewrite strlen_LOWERCASE; lia]. Qed.
Lemma pick_NUMBERS r : 0 <= r -> In (pick NUMBERS r) (c_string NUMBERS).
Proof. intros. apply pick_In; [auto|rewrite strlen_NUMBERS; lia]. Qed.
Lemma pick_SPECIAL r : 0 <= r -> In (pick SPECIAL r) (c_string SPECIAL).
Proof. intros. apply pick_In; [auto|rewrite strlen_SPECIAL; lia]. Qed.

Lemma guaranteed_In (length include_special : Z) (n : nat) :
  Forall (fun c => In c (alphabet include_special))
    (guaranteed draws (special_placed length include_special) n).
Proof.
  unfold guaranteed. apply Forall_app. split.
  - repeat apply Forall_cons_2; [| | |apply Forall_nil_2].
    + apply (class_In_alphabet _ UPPERCASE);
        [apply UPPERCASE_enabled|now apply pick_UPPERCASE].
    + apply (class_In_alphabet _ LOWERCASE);
        [apply LOWERCASE_enabled|now apply pick_LOWERCASE].
    + apply (class_In_alphabet _ NUMBERS);
        [apply NUMBERS_enabled|now apply pick_NUMBERS].
  - destruct (special_placed length include_special) eqn:Hg;
      [|apply Forall_nil_2].
    apply Forall_cons_2; [|apply Forall_nil_2].
    apply (class_In_alphabet _ SPECIAL); [|now apply pick_SPECIAL].
    apply SPECIAL_enabled. unfold special_placed in Hg. lia.
Qed.

Lemma unshuffled_In (length include_special : Z) (n : nat) :
  Forall (fun c => In c (alphabet include_special))
    (unshuffled draws length include_special n).
Proof.
  unfold unshuffled. apply Forall_app. split; [apply guaranteed_In|].
  unfold fill_chars. apply List.Forall_forall. intros c Hc.
  apply in_map_iff in Hc as [t [<- _]]. apply fill_char_In.
Qed.

Lemma password_of_Permutation (length include_special : Z) (n : nat) :
  Permutation (password_of draws length include_special n)
    (take (Z.to_nat length) (unshuffled draws length include_special n)).
Proof. apply fisher_yates_Permutation. Qed.

Lemma password_of_In (length include_special : Z) (n : nat) :
  Forall (fun c => In c (alphabet include_special))
    (password_of draws length include_special n).
Proof.
  rewrite password_of_Permutation. apply Forall_take, unshuffled_In.
Qed.

Lemma password_of_length (length include_special : Z) (n : nat) :
  List.length (password_of draws length include_special n) = Z.to_nat length.
Proof.
  rewrite (Permutation_length (password_of_Permutation _ _ _)).
  rewrite length_take, unshuffled_length. lia.
Qed.

Lemma alphabet_nonzero (include_special : Z) :
  Forall (fun c => c <> zero) (alphabet include_special).
Proof.
  unfold alphabet. apply List.Forall_forall. intros c Hc.
  apply in_concat in Hc as [l [Hl Hc]].
  apply in_map_iff in Hl as [cs [<- _]].
  pose proof (c_string_nonzero cs) as H.
  rewrite List.Forall_forall in H. now apply H.
Qed.

Lemma password_of_nonzero (length include_special : Z) (n : nat) :
  Forall (fun c => c <> zero) (password_of draws length include_special n).
Proof.
  pose proof (alphabet_nonzero include_special) as Ha.
  rewrite List.Forall_forall in Ha.
  eapply List.Forall_impl; [|apply password_of_In]. intros c. apply Ha.
Qed.

(** The C string left in the buffer is the password that the draws
    determine. *)
Lemma generate_password_string (buf : list ascii) (length include_special : Z)
  (n : nat) :
  0 <= length -> (Z.to_nat length < List.length buf)%nat ->
  (3 <= List.length buf)%nat ->
  exists buf',
    generate_password draws buf length include_special n
    = Some (buf', (n + draws_used length include_special)%nat) /\
    List.length buf' = List.length buf /\
    c_string buf' = password_of draws length include_special n /\
    buf' !! Z.to_nat length = Some zero.
Proof.
  intros HL Hbuf H3. eexists. split; [now apply generate_password_run|].
  pose proof (password_of_length length include_special n) as Hlen.
  pose proof (unshuffled_length length include_special n) as Hun.
  split; [|split].
  - rewrite length_app. cbn [List.length].
    rewrite length_drop, length_app, length_drop, Hlen.
    destruct (special_placed length include_special) eqn:Hg;
      [unfold special_placed in Hg|]; lia.
  - apply c_string_app_zero, password_of_nonzero.
  - rewrite lookup_app_r by lia. now rewrite Hlen, Nat.sub_diag.
Qed.

Lemma valid_policy_guard (length include_special : Z) :
  valid_policy length include_special ->
  special_placed length include_special = negb (include_special =? 0).
Proof.
  intros [Hl Hs]. unfold special_placed.
  destruct (Z.eqb_spec include_special 0); [reflexivity|].
  simpl. apply Z.leb_le. auto.
Qed.

Lemma valid_policy_unshuffled (length include_special : Z) (n : nat) :
  valid_policy length include_special ->
  Permutation (password_of draws length include_special n)
    (unshuffled draws length include_special n).
Proof.
  intros Hv. rewrite password_of_Permutation.
  rewrite take_ge; [reflexivity|].
  rewrite unshuffled_length. destruct Hv as [Hl Hs].
  unfold special_placed.
  destruct (Z.eqb_spec include_special 0); simpl; [lia|].
  specialize (Hs ltac:(assumption)). destruct (4 <=? length); lia.
Qed.


(** ** The generator *)

(** C1: for every valid policy (length in [3,128], at least 4 with special
    characters) [generate_password] returns, and the password it leaves in
    the buffer has a character of UPPERCASE, one of LOWERCASE, one of NUMBERS
    and, when [include_special] is set, one of SPECIAL. *)
Theorem generate_password_has_every_class (buf : list ascii)
  (length include_special : Z) (n : nat) :
  valid_policy length include_special ->
  (Z.to_nat length < List.length buf)%nat ->
  exists buf' n',
    generate_password draws buf length include_special n = Some (buf', n') /\
    has_class (c_string buf') UPPERCASE /\
    has_class (c_string buf') LOWERCASE /\
    has_class (c_string buf') NUMBERS /\
    (include_special <> 0 -> has_class (c_string buf') SPECIAL).
Proof.
  intros Hv Hbuf.
  destruct (generate_password_string buf length include_special n)
    as (buf' & Hrun & _ & Hstr & _); [destruct Hv; lia..|].
  exists buf', (n + draws_used length include_special)%nat.
  split; [exact Hrun|]. rewrite Hstr.
  pose proof (valid_policy_unshuffled length include_special n Hv) as Hp.
  assert (forall c, In c (unshuffled draws length include_special n) ->
            In c (password_of draws length include_special n)) as Hin
    by (intros c; apply Permutation_in; now symmetry).
  unfold unshuffled, guaranteed in Hin.
  rewrite (valid_policy_guard _ _ Hv) in Hin.
  repeat split.
  - exists (pick UPPERCASE (draws n)). split; [|now apply pick_UPPERCASE].
    apply Hin. simpl. auto.
  - exists (pick LOWERCASE (draws (n + 1))).
    split; [|now apply pick_LOWERCASE]. apply Hin. simpl. auto.
  - exists (pick NUMBERS (draws (n + 2))). split; [|now apply pick_NUMBERS].
    apply Hin. simpl. auto.
  - intros Hs. exists (pick SPECIAL (draws (n + 3))).
    split; [|now apply pick_SPECIAL]. apply Hin.
    destruct (Z.eqb_spec include_special 0); [contradiction|]. simpl. auto.
Qed.

(** C2: for every valid policy [generate_password] returns a string of
    exactly [length] characters: the positions 0 to [length - 1] of the buffer
    hold characters of the enabled classes (none of them NUL) and the position
    [length] holds the terminating NUL. *)
Theorem generate_password_exact_length (buf : list ascii)
  (length include_special : Z) (n : nat) :
  valid_policy length include_special ->
  (Z.to_nat length < List.length buf)%nat ->
  exists buf' n',
    generate_password draws buf length include_special n = Some (buf', n') /\
    List.length (c_string buf') = Z.to_nat length /\
    (forall i, (i < Z.to_nat length)%nat ->
       exists c, buf' !! i = Some c /\ c <> zero /\
                 In c (alphabet include_special)) /\
    buf' !! Z.to_nat length = Some zero.
Proof.
  intros Hv Hbuf.
  destruct (generate_password_string buf length include_special n)
    as (buf' & Hrun & _ & Hstr & Hnul); [destruct Hv; lia..|].
  exists buf', (n + draws_used length include_special)%nat.
  pose proof (password_of_length length include_special n) as Hlen.
  split; [exact Hrun|]. split; [now rewrite Hstr|]. split; [|exact Hnul].
  intros i Hi.
  destruct (lookup_lt_is_Some_2 (c_string buf') i) as [c Hc];
    [rewrite Hstr; lia|].
  exists c. split.
  - unfold c_string in Hc. apply lookup_take_Some in Hc. tauto.
  - rewrite Hstr in Hc. apply list_elem_of_lookup_2, list_elem_of_In in Hc.
    pose proof (password_of_nonzero length include_special n) as Hnz.
    pose proof (password_of_In length include_special n) as Hal.
    rewrite List.Forall_forall in Hnz, Hal. auto.
Qed.

(** C3: for every valid policy no character of the generated password is one
    of 0, O, I, l, 1: every character comes from one of the four character
    sets, and none of the four contains any of these five. *)
Theorem generate_password_no_similar_characters (buf : list ascii)
  (length include_special : Z) (n : nat) :
  valid_policy length include_special ->
  (Z.to_nat length < List.length buf)%nat ->
  exists buf' n',
    generate_password draws buf length include_special n = Some (buf', n') /\
    Forall (fun c => In c (alphabet include_special)) (c_string buf') /\
    Forall (fun c => ~ In c similar_characters) (c_string buf') /\
    (forall charset c,
       In charset [UPPERCASE; LOWERCASE; NUMBERS; SPECIAL] ->
       In c similar_characters -> ~ In c charset).
Proof.
  intros Hv Hbuf.
  assert (forall charset c,
            In charset [UPPERCASE; LOWERCASE; NUMBERS; SPECIAL] ->
            In c similar_characters -> ~ In c charset) as Hsets.
  { intros charset c Hcs Hc Hin.
    assert (forallb (fun cs => forallb (fun c =>
              negb (existsb (Ascii.eqb c) cs)) similar_characters)
              [UPPERCASE; LOWERCASE; NUMBERS; SPECIAL] = true) as Hall
      by (vm_compute; reflexivity).
    rewrite forallb_forall in Hall. specialize (Hall _ Hcs).
    rewrite forallb_forall in Hall. specialize (Hall _ Hc).
    apply negb_true_iff in Hall.
    assert (existsb (Ascii.eqb c) charset = true) as Hex
      by (apply existsb_exists; exists c; split;
          [exact Hin|apply Ascii.eqb_refl]).
    congruence. }
  destruct (generate_password_string buf length include_special n)
    as (buf' & Hrun & _ & Hstr & _); [destruct Hv; lia..|].
  exists buf', (n + draws_used length include_special)%nat.
  split; [exact Hrun|]. rewrite Hstr.
  pose proof (password_of_In length include_special n) as Hal.
  split; [exact Hal|]. split; [|exact Hsets].
  eapply List.Forall_impl; [|exact Hal].
  intros c Hc Hsim. unfold alphabet in Hc.
  apply in_concat in Hc as [l [Hl Hc]].
  apply in_map_iff in Hl as [cs [<- Hcs]].
  apply (Hsets cs c); [|exact Hsim|].
  - unfold enabled_classes in Hcs.
    destruct (include_special =? 0); simpl in Hcs |- *; tauto.
  - now apply c_string_In.
Qed.

(** C6: at the boundary lengths the fill phase contributes nothing.  With
    length 3 and no special characters the password is a permutation of one
    UPPERCASE, one LOWERCASE and one NUMBERS character; with length 4 and
    special characters it is a permutation of one character of each of the
    four classes.  The only draws are those of the guaranteed characters and
    of the shuffle. *)
Theorem generate_password_boundary (buf : list ascii) (include_special : Z)
  (n : nat) :
  include_special <> 0 ->
  (4 < List.length buf)%nat ->
  (exists buf' u l d,
     generate_password draws buf 3 0 n = Some (buf', (n + 3 + 2)%nat) /\
     u = pick UPPERCASE (draws n) /\ In u (c_string UPPERCASE) /\
     l = pick LOWERCASE (draws (n + 1)) /\ In l (c_string LOWERCASE) /\
     d = pick NUMBERS (draws (n + 2)) /\ In d (c_string NUMBERS) /\
     Permutation (c_string buf') [u; l; d]) /\
  (exists buf' u l d s,
     generate_password draws buf 4 include_special n
     = Some (buf', (n + 4 + 3)%nat) /\
     u = pick UPPERCASE (draws n) /\ In u (c_string UPPERCASE) /\
     l = pick LOWERCASE (draws (n + 1)) /\ In l (c_string LOWERCASE) /\
     d = pick NUMBERS (draws (n + 2)) /\ In d (c_string NUMBERS) /\
     s = pick SPECIAL (draws (n + 3)) /\ In s (c_string SPECIAL) /\
     Permutation (c_string buf') [u; l; d; s]).
Proof.
  intros Hs Hbuf. split.
  - destruct (generate_password_string buf 3 0 n)
      as (buf' & Hrun & _ & Hstr & _); [simpl; lia..|].
    exists buf', (pick UPPERCASE (draws n)), (pick LOWERCASE (draws (n + 1))),
      (pick NUMBERS (draws (n + 2))).
    split; [rewrite Hrun; do 2 f_equal;
            change (draws_used 3 0) with 5%nat; lia|].
    split; [reflexivity|]. split; [now apply pick_UPPERCASE|].
    split; [reflexivity|]. split; [now apply pick_LOWERCASE|].
    split; [reflexivity|]. split; [now apply pick_NUMBERS|].
    rewrite Hstr.
    apply (valid_policy_unshuffled 3 0 n). unfold valid_policy. lia.
  - destruct (generate_password_string buf 4 include_special n)
      as (buf' & Hrun & _ & Hstr & _); [simpl; lia..|].
    assert (valid_policy 4 include_special) as Hv
      by (unfold valid_policy; lia).
    assert (special_placed 4 include_special = true) as Hg
      by (rewrite (valid_policy_guard _ _ Hv);
          destruct (Z.eqb_spec include_special 0); [contradiction|reflexivity]).
    exists buf', (pick UPPERCASE (draws n)), (pick LOWERCASE (draws (n + 1))),
      (pick NUMBERS (draws (n + 2))), (pick SPECIAL (draws (n + 3))).
    split; [rewrite Hrun; do 2 f_equal;
            unfold draws_used, draws_before_shuffle; rewrite Hg;
            change (Z.to_nat 4) with 4%nat;
            change (Z.to_nat (4 - 1)) with 3%nat; lia|].
    split; [reflexivity|]. split; [now apply pick_UPPERCASE|].
    split; [reflexivity|]. split; [now apply pick_LOWERCASE|].
    split; [reflexivity|]. split; [now apply pick_NUMBERS|].
    split; [reflexivity|]. split; [now apply pick_SPECIAL|].
    rewrite Hstr.
    pose proof (valid_policy_unshuffled 4 include_special n Hv) as Hp.
    unfold unshuffled in Hp. rewrite Hg in Hp. exact Hp.
Qed.

(** C10: for every valid policy the generated password never contains the
    lowercase letter o: LOWERCASE omits it, although it is not one of the five
    characters that the banner of the output lists as excluded. *)
Theorem generate_password_no_lowercase_o (buf : list ascii)
  (length include_special : Z) (n : nat) :
  valid_policy length include_special ->
  (Z.to_nat length < List.length buf)%nat ->
  exists buf' n',
    generate_password draws buf length include_special n = Some (buf', n') /\
    Forall (fun c => c <> "o"%char) (c_string buf') /\
    ~ In "o"%char LOWERCASE /\
    ~ In "o"%char similar_characters /\
    (forall len special count, exists text,
       banner len special count
       = text +:+ "Excluded similar characters: 0, O, I, l, 1" +:+ nl +:+ nl).
Proof.
  intros Hv Hbuf.
  destruct (generate_password_string buf length include_special n)
    as (buf' & Hrun & _ & Hstr & _); [destruct Hv; lia..|].
  exists buf', (n + draws_used length include_special)%nat.
  split; [exact Hrun|]. rewrite Hstr.
  assert (forall cs, In cs [UPPERCASE; LOWERCASE; NUMBERS; SPECIAL] ->
            ~ In "o"%char cs) as Hsets.
  { intros cs Hcs Hin.
    assert (forallb (fun cs => negb (existsb (Ascii.eqb "o") cs))
              [UPPERCASE; LOWERCASE; NUMBERS; SPECIAL] = true) as Hall
      by (vm_compute; reflexivity).
    rewrite forallb_forall in Hall. specialize (Hall _ Hcs).
    apply negb_true_iff in Hall.
    assert (existsb (Ascii.eqb "o") cs = true) as Hex
      by (apply existsb_exists; exists "o"%char; split;
          [exact Hin|apply Ascii.eqb_refl]).
    congruence. }
  split; [|split; [|split]].
  - eapply List.Forall_impl; [|apply password_of_In].
    intros c Hc ->. unfold alphabet in Hc.
    apply in_concat in Hc as [l [Hl Hc]].
    apply in_map_iff in Hl as [cs [<- Hcs]].
    apply (Hsets cs).
    + unfold enabled_classes in Hcs.
      destruct (include_special =? 0); simpl in Hcs |- *; tauto.
    + now apply c_string_In.
  - apply Hsets. simpl. auto.
  - intros Hin. simpl in Hin.
    repeat (destruct Hin as [Hin|Hin]; [discriminate Hin|]). exact Hin.
  - intros len special count. unfold banner.
    exists ("Generated password" +:+
            (if 1 <? count then "s" else EmptyString) +:+ ":" +:+ nl +:+
            "Length: " +:+ print_int len +:+ " characters" +:+ nl +:+
            "Character sets: Uppercase, Lowercase, Numbers" +:+
            (if special =? 0 then EmptyString else ", Special characters")
            +:+ nl).
    now rewrite !string_app_assoc.
Qed.

(** ** The shuffle *)

(** C4: on a string of [length] >= 1 characters, whatever the draws,
    [shuffle_string] runs Fisher-Yates from the index [length - 1] down to 1:
    the element at [i] is swapped with the one at [j = rand() % (i + 1)], so
    [j <= i], and every index of [0, i] is the image of one residue of the
    draw.  The result is a permutation of the string; what follows the string
    in the array is left as it was. *)
Theorem shuffle_string_permutation (str : list ascii) (length : Z) (n : nat) :
  1 <= length -> (Z.to_nat length <= List.length str)%nat ->
  exists str',
    shuffle_string draws str length n
    = Some (str', (n + Z.to_nat (length - 1))%nat) /\
    str' = fisher_yates draws (Z.to_nat (length - 1)) n str /\
    Permutation (take (Z.to_nat length) str') (take (Z.to_nat length) str) /\
    drop (Z.to_nat length) str' = drop (Z.to_nat length) str /\
    (forall k l, fisher_yates draws 0 k l = l) /\
    (forall i k l,
       let j := Z.to_nat (Z.rem (draws k) (Z.of_nat (S i) + 1)) in
       fisher_yates draws (S i) k l
       = fisher_yates draws i (S k) (swap l (S i) j) /\
       (j <= S i)%nat) /\
    (forall i q j, 0 <= q -> 0 <= j <= Z.of_nat i ->
       Z.rem (q * (Z.of_nat i + 1) + j) (Z.of_nat i + 1) = j).
Proof.
  intros HL Hlen.
  exists (fisher_yates draws (Z.to_nat (length - 1)) n str).
  split; [unfold shuffle_string; apply shuffle_loop_eq; lia|].
  split; [reflexivity|].
  rewrite (fisher_yates_take _ _ (Z.to_nat length)) by lia.
  assert (List.length (fisher_yates draws (Z.to_nat (length - 1)) n
                         (take (Z.to_nat length) str)) = Z.to_nat length)
    as Hfy by (rewrite fisher_yates_length, length_take; lia).
  split; [|split; [|split; [|split]]].
  - rewrite take_app_length' by (now rewrite Hfy).
    apply fisher_yates_Permutation.
  - now rewrite drop_app_length' by (now rewrite Hfy).
  - reflexivity.
  - intros i k l j. split; [reflexivity|].
    destruct (rem_index (draws k) (Z.of_nat (S i) + 1)); [auto|lia|].
    unfold j. lia.
  - intros i q j Hq Hj. symmetry. apply Z.rem_unique with (q := q); nia.
Qed.

(** ** The fill phase *)

(** C7: every fill slot (the positions after the guaranteed prefix [g]) takes
    two draws of its own: the first one, modulo the number of enabled classes
    (3 without special characters, 4 with them), is the class index, the
    second one, modulo the size of that class, the character index.  Every
    class index is the image of one residue of the draw.  Without special
    characters no slot holds a character of SPECIAL. *)
Theorem fill_loop_slots (include_special : Z) (k : nat) (g rest : list ascii)
  (n : nat) :
  (k <= List.length rest)%nat ->
  fill_loop draws include_special k (Z.of_nat (List.length g)) (g ++ rest) n
  = Some (g ++ fill_chars draws include_special n k ++ drop k rest,
          (n + 2 * k)%nat) /\
  List.length (enabled_classes include_special)
  = (if include_special =? 0 then 3%nat else 4%nat) /\
  (forall t, (t < k)%nat ->
     let class := class_index include_special (draws (n + 2 * t)) in
     (class < List.length (enabled_classes include_special))%nat /\
     nth t (fill_chars draws include_special n k) zero
     = pick (nth class (enabled_classes include_special) [])
         (draws (n + 2 * t + 1))) /\
  (forall q class,
     0 <= q ->
     (class < List.length (enabled_classes include_special))%nat ->
     class_index include_special
       (q * Z.of_nat (List.length (enabled_classes include_special))
        + Z.of_nat class) = class) /\
  (include_special = 0 ->
   ~ In SPECIAL (enabled_classes include_special) /\
   Forall (fun c => ~ In c (c_string SPECIAL))
     (fill_chars draws include_special n k)).
Proof.
  intros Hk. split; [now apply fill_loop_eq|].
  split; [unfold enabled_classes; destruct (include_special =? 0);
          reflexivity|].
  split; [|split].
  - intros t Ht class. split; [apply class_index_lt; auto|].
    unfold fill_chars.
    rewrite (nth_indep _ zero (fill_char draws include_special (n + 2 * 0)))
      by (rewrite length_map, length_seq; lia).
    rewrite (map_nth (fun t => fill_char draws include_special (n + 2 * t))).
    rewrite seq_nth by lia. reflexivity.
  - intros q class Hq Hclass. unfold class_index.
    set (m := List.length (enabled_classes include_special)) in *.
    rewrite <- (Z.rem_unique _ (Z.of_nat m) q (Z.of_nat class)); nia.
  - intros ->. split.
    + simpl. intros [H|[H|[H|[]]]]; discriminate H.
    + apply List.Forall_forall. intros c Hin Hs.
      unfold fill_chars in Hin. apply in_map_iff in Hin as [t [<- _]].
      pose proof (fill_char_In 0 (n + 2 * t)) as Hc.
      set (c := fill_char draws 0 (n + 2 * t)) in *.
      assert (forallb (fun c => negb (existsb (Ascii.eqb c)
                (c_string SPECIAL))) (alphabet 0) = true) as Hall
        by (vm_compute; reflexivity).
      rewrite forallb_forall in Hall. specialize (Hall _ Hc).
      apply negb_true_iff in Hall.
      assert (existsb (Ascii.eqb c) (c_string SPECIAL) = true) as Hex
        by (apply existsb_exists; exists c; split;
            [exact Hs|apply Ascii.eqb_refl]).
      congruence.
Qed.

(** ** Invalid policies *)

(** C5, as the code has it: [generate_password] checks nothing.  Called with
    an invalid policy whose length is in [0,128] (a length below 3, or
    length 3 with special characters) on a buffer that holds 3 characters
    and [length + 1] ones, it raises no error: it returns a string of exactly
    [length] characters of the enabled classes; for length 3 with special
    characters the guard of line 49 skips the SPECIAL character and the
    string is a permutation of one UPPERCASE, one LOWERCASE and one NUMBERS
    character. *)
Theorem generate_password_invalid_policy (buf : list ascii)
  (length include_special : Z) (n : nat) :
  ~ valid_policy length include_special ->
  0 <= length <= 128 ->
  (3 <= List.length buf)%nat -> (Z.to_nat length < List.length buf)%nat ->
  exists buf' n',
    generate_password draws buf length include_special n = Some (buf', n') /\
    List.length (c_string buf') = Z.to_nat length /\
    Forall (fun c => In c (alphabet include_special)) (c_string buf') /\
    (length = 3 ->
     Permutation (c_string buf')
       [pick UPPERCASE (draws n); pick LOWERCASE (draws (n + 1));
        pick NUMBERS (draws (n + 2))]).
Proof.
  intros Hinv HL H3 Hbuf.
  destruct (generate_password_string buf length include_special n)
    as (buf' & Hrun & _ & Hstr & _); [lia..|].
  exists buf', (n + draws_used length include_special)%nat.
  split; [exact Hrun|]. rewrite Hstr.
  split; [apply password_of_length|]. split; [apply password_of_In|].
  intros ->. rewrite password_of_Permutation. reflexivity.
Qed.

End Runs.

(** ** The command line *)

Section MainRuns.

Variable draws : nat -> Z.
Hypothesis draws_nonneg : forall n, 0 <= draws n.
Variable atoi : string -> Z.
Variable uninit : nat -> ascii.

Lemma parse_options_valid (program_name : string) (opts : list getopt_result) :
  forallb (valid_option atoi) opts = true ->
  forall length include_special count,
  parse_options atoi program_name opts length include_special count
  = inr (fold_left (fun len o =>
                      match o with opt_l optarg => atoi optarg | _ => len end)
           opts length,
         (if existsb is_opt_s opts then 1 else include_special),
         fold_left (fun cnt o =>
                      match o with opt_c optarg => atoi optarg | _ => cnt end)
           opts count).
Proof.
  induction opts as [|o opts IH]; intros Hv length include_special count;
    [reflexivity|].
  cbn [forallb] in Hv. apply andb_true_iff in Hv as [Ho Hv].
  destruct o; cbn [valid_option] in Ho; try discriminate Ho;
    cbn [parse_options fold_left existsb is_opt_s orb].
  - destruct (Z.ltb_spec (atoi optarg) 3); [lia|].
    destruct (Z.ltb_spec 128 (atoi optarg)); [lia|].
    now rewrite IH.
  - rewrite IH by exact Hv. now destruct (existsb is_opt_s opts).
  - destruct (Z.ltb_spec (atoi optarg) 1); [lia|].
    destruct (Z.ltb_spec 100 (atoi optarg)); [lia|].
    now rewrite IH.
Qed.

Lemma effective_length_range (opts : list getopt_result) :
  forallb (valid_option atoi) opts = true ->
  3 <= effective_length atoi opts <= 128.
Proof.
  unfold effective_length. intros Hv.
  assert (forall len, 3 <= len <= 128 ->
            3 <= fold_left (fun len o =>
                   match o with opt_l optarg => atoi optarg | _ => len end)
                   opts len <= 128) as H; [|apply H; lia].
  induction opts as [|o opts IH]; intros len Hlen; [exact Hlen|].
  cbn [forallb] in Hv. apply andb_true_iff in Hv as [Ho Hv].
  cbn [fold_left]. apply IH; [exact Hv|].
  destruct o; cbn [valid_option] in Ho; try discriminate Ho; lia.
Qed.

Lemma effective_count_range (opts : list getopt_result) :
  forallb (valid_option atoi) opts = true ->
  1 <= effective_count atoi opts <= 100.
Proof.
  unfold effective_count. intros Hv.
  assert (forall cnt, 1 <= cnt <= 100 ->
            1 <= fold_left (fun cnt o =>
                   match o with opt_c optarg => atoi optarg | _ => cnt end)
                   opts cnt <= 100) as H; [|apply H; lia].
  induction opts as [|o opts IH]; intros cnt Hcnt; [exact Hcnt|].
  cbn [forallb] in Hv. apply andb_true_iff in Hv as [Ho Hv].
  cbn [fold_left]. apply IH; [exact Hv|].
  destruct o; cbn [valid_option] in Ho; try discriminate Ho; lia.
Qed.

Lemma passwords_of_S (length include_special : Z) (n count : nat) :
  passwords_of draws length include_special n (S count)
  = password_of draws length include_special n
    :: passwords_of draws length include_special
         (n + draws_used length include_special) count.
Proof.
  unfold passwords_of. rewrite <- cons_seq, <- seq_shift. cbn [map].
  rewrite List.map_map, Nat.add_0_r. f_equal.
  apply map_ext. intros t. f_equal. lia.
Qed.

(** The generation loop prints one numbered line for each call. *)
Lemma generate_loop_eq (length include_special : Z) (count : nat) :
  0 <= length ->
  forall (i : Z) (buf : list ascii) (stdout : string) (n : nat),
  (Z.to_nat length < List.length buf)%nat -> (3 <= List.length buf)%nat ->
  generate_loop draws count i buf length include_special stdout n
  = Some (stdout +:+
          numbered_lines (i + 1)
            (passwords_of draws length include_special n count),
          (n + count * draws_used length include_special)%nat).
Proof.
  intros HL. induction count as [|count IH]; intros i buf stdout n Hbuf H3.
  - cbn [generate_loop passwords_of seq map numbered_lines]. unfold ret.
    rewrite string_app_empty_r. do 2 f_equal. lia.
  - cbn [generate_loop].
    destruct (generate_password_string draws draws_nonneg buf length
                include_special n HL Hbuf H3)
      as (buf' & Hrun & Hlen & Hstr & _).
    rewrite (bind_Some _ _ _ _ _ Hrun).
    rewrite IH by lia.
    rewrite passwords_of_S. cbn [numbered_lines].
    unfold password_line. rewrite Hstr, !string_app_assoc.
    do 2 f_equal. lia.
Qed.

Lemma special_requested_In (opts : list getopt_result) :
  In opt_s opts <-> special_requested opts <> 0.
Proof.
  unfold special_requested.
  destruct (existsb is_opt_s opts) eqn:He; split; intros H; try lia.
  - apply existsb_exists in He as [o [Ho Hs]]. now destruct o.
  - assert (existsb is_opt_s opts = true)
      by (apply existsb_exists; exists opt_s; split; [exact H|reflexivity]).
    congruence.
Qed.

(** What [main] does on a command line whose options all pass the checks of
    the option loop. *)
Lemma main_valid_options (program_name : string) (opts : list getopt_result) :
  forallb (valid_option atoi) opts = true ->
  main draws atoi uninit program_name opts
  = if negb (special_requested opts =? 0) && (effective_length atoi opts <? 4)
    then Some (Outcome 1 EmptyString msg_special_min)
    else Some (Outcome 0
                 (banner (effective_length atoi opts) (special_requested opts)
                    (effective_count atoi opts) +:+
                  numbered_lines 1
                    (passwords_of draws (effective_length atoi opts)
                       (special_requested opts) 0
                       (Z.to_nat (effective_count atoi opts))))
                 EmptyString).
Proof.
  intros Hv. unfold main.
  rewrite (parse_options_valid program_name opts Hv).
  fold (effective_length atoi opts) (effective_count atoi opts).
  change (if existsb is_opt_s opts then 1 else 0)
    with (special_requested opts).
  destruct (negb (special_requested opts =? 0) &&
            (effective_length atoi opts <? 4)); [reflexivity|].
  pose proof (effective_length_range opts Hv) as HL.
  rewrite generate_loop_eq; [reflexivity|lia|..];
    rewrite length_map, length_seq; lia.
Qed.

(** C8: when [-s] is set and the effective length is below 4, on a command
    line whose options each pass the checks of the option loop, the program
    exits with code 1, writes to standard error that the length must be at
    least 4 when using special characters, and prints nothing: the check
    precedes the generation loop. *)
Theorem main_special_needs_length_4 (program_name : string)
  (opts : list getopt_result) :
  forallb (valid_option atoi) opts = true ->
  In opt_s opts ->
  effective_length atoi opts < 4 ->
  main draws atoi uninit program_name opts
  = Some (Outcome 1 EmptyString
            ("Error: Password length must be at least 4 when using special characters"
             +:+ nl)).
Proof.
  intros Hv Hs HL. rewrite (main_valid_options _ _ Hv).
  apply special_requested_In in Hs.
  destruct (Z.eqb_spec (special_requested opts) 0); [contradiction|].
  destruct (Z.ltb_spec (effective_length atoi opts) 4); [|lia].
  reflexivity.
Qed.

(** C9: on a valid command line, with effective length [L] in [3,128] (at
    least 4 with [-s]) and effective count [C] in [1,100], the program exits
    with code 0 and prints, after the banner, exactly [C] lines numbered 1 to
    [C] in order, each with a password of exactly [L] characters; the banner
    starts with [Generated passwords:] when [C > 1] and with
    [Generated password:] otherwise. *)
Theorem main_prints_count_passwords (program_name : string)
  (opts : list getopt_result) (L C : Z) :
  forallb (valid_option atoi) opts = true ->
  effective_length atoi opts = L ->
  effective_count atoi opts = C ->
  (In opt_s opts -> 4 <= L) ->
  3 <= L <= 128 /\ 1 <= C <= 100 /\
  exists pws rest,
    main draws atoi uninit program_name opts
    = Some (Outcome 0
              ("Generated password" +:+
               (if 1 <? C then "s" else EmptyString) +:+ ":" +:+ nl +:+
               rest +:+ numbered_lines 1 pws)
              EmptyString) /\
    banner L (special_requested opts) C
    = "Generated password" +:+
      (if 1 <? C then "s" else EmptyString) +:+ ":" +:+ nl +:+ rest /\
    List.length pws = Z.to_nat C /\
    Forall (fun p => List.length p = Z.to_nat L /\
                     ~ In (ascii_of_nat 10) p) pws.
Proof.
  intros Hv HL HC Hs.
  pose proof (effective_length_range opts Hv) as HLr.
  pose proof (effective_count_range opts Hv) as HCr.
  rewrite HL in HLr. rewrite HC in HCr.
  split; [exact HLr|]. split; [exact HCr|].
  exists (passwords_of draws L (special_requested opts) 0 (Z.to_nat C)).
  eexists. split; [|split; [reflexivity|split]].
  - assert (negb (special_requested opts =? 0) && (L <? 4) = false) as Hg.
    { destruct (Z.eqb_spec (special_requested opts) 0) as [H0|H0];
        [reflexivity|].
      apply special_requested_In in H0. specialize (Hs H0).
      destruct (Z.ltb_spec L 4); [lia|reflexivity]. }
    rewrite (main_valid_options _ _ Hv), HL, HC, Hg.
    unfold banner. now rewrite !string_app_assoc.
  - unfold passwords_of. now rewrite length_map, length_seq.
  - unfold passwords_of. apply Forall_map, List.Forall_forall. intros t _.
    cbn beta. split; [apply password_of_length; exact draws_nonneg|].
    intros Hin.
    pose proof (password_of_In draws draws_nonneg L (special_requested opts)
                  (0 + t * draws_used L (special_requested opts))) as Hal.
    rewrite List.Forall_forall in Hal. apply Hal in Hin.
    apply (alphabet_excludes (ascii_of_nat 10)) in Hin;
      [now apply Hin|vm_compute; reflexivity].
Qed.

End MainRuns.

(** C5 fails on the code: with special characters and length 3, an invalid
    policy, [generate_password] returns the three-character password
    [Mx7]. *)
Lemma generate_password_invalid_policy_no_error :
  ~ valid_policy 3 1 /\
  exists buf',
    generate_password test_draws test_buffer 3 1 0%nat = Some (buf', 5%nat) /\
    c_string buf' = list_ascii_of_string "Mx7".
Proof.
  split.
  - unfold valid_policy. lia.
  - eexists. split; [vm_compute; reflexivity|]. vm_compute. reflexivity.
Qed.

Lemma generate_password_invalid_policy_witness :
  exists buf' n',
    generate_password test_draws test_buffer 3 1 0%nat = Some (buf', n') /\
    List.length (c_string buf') = Z.to_nat 3 /\
    Forall (fun c => In c (alphabet 1)) (c_string buf') /\
    (3 = 3 ->
     Permutation (c_string buf')
       [pick UPPERCASE (test_draws 0); pick LOWERCASE (test_draws (0 + 1));
        pick NUMBERS (test_draws (0 + 2))]).
Proof.
  apply (generate_password_invalid_policy test_draws).
  - intros k. unfold test_draws. lia.
  - unfold valid_policy. lia.
  - lia.
  - vm_compute. lia.
  - vm_compute. lia.
Defined.

Lemma generate_password_has_every_class_witness :
  exists buf' n',
    generate_password test_draws test_buffer 12 1 0%nat = Some (buf', n') /\
    has_class (c_string buf') UPPERCASE /\
    has_class (c_string buf') LOWERCASE /\
    has_class (c_string buf') NUMBERS /\
    (1 <> 0 -> has_class (c_string buf') SPECIAL).
Proof.
  apply (generate_password_has_every_class test_draws).
  - intros k. unfold test_draws. lia.
  - unfold valid_policy. lia.
  - vm_compute. lia.
Defined.

Lemma generate_password_exact_length_witness :
  exists buf' n',
    generate_password test_draws test_buffer 128 0 0%nat = Some (buf', n') /\
    List.length (c_string buf') = Z.to_nat 128 /\
    (forall i, (i < Z.to_nat 128)%nat ->
       exists c, buf' !! i = Some c /\ c <> zero /\ In c (alphabet 0)) /\
    buf' !! Z.to_nat 128 = Some zero.
Proof.
  apply (generate_password_exact_length test_draws).
  - intros k. unfold test_draws. lia.
  - unfold valid_policy. lia.
  - vm_compute. lia.
Defined.

Lemma generate_password_no_similar_characters_witness :
  exists buf' n',
    generate_password test_draws test_buffer 16 1 0%nat = Some (buf', n') /\
    Forall (fun c => In c (alphabet 1)) (c_string buf') /\
    Forall (fun c => ~ In c similar_characters) (c_string buf') /\
    (forall charset c,
       In charset [UPPERCASE; LOWERCASE; NUMBERS; SPECIAL] ->
       In c similar_characters -> ~ In c charset).
Proof.
  apply (generate_password_no_similar_characters test_draws).
  - intros k. unfold test_draws. lia.
  - unfold valid_policy. lia.
  - vm_compute. lia.
Defined.

Lemma shuffle_string_permutation_witness :
  exists str',
    shuffle_string test_draws (list_ascii_of_string "Ab3!xyz") 7 0%nat
    = Some (str', (0 + Z.to_nat (7 - 1))%nat) /\
    str' = fisher_yates test_draws (Z.to_nat (7 - 1)) 0
             (list_ascii_of_string "Ab3!xyz") /\
    Permutation (take (Z.to_nat 7) str')
      (take (Z.to_nat 7) (list_ascii_of_string "Ab3!xyz")) /\
    drop (Z.to_nat 7) str' = drop (Z.to_nat 7) (list_ascii_of_string "Ab3!xyz") /\
    (forall k l, fisher_yates test_draws 0 k l = l) /\
    (forall i k l,
       let j := Z.to_nat (Z.rem (test_draws k) (Z.of_nat (S i) + 1)) in
       fisher_yates test_draws (S i) k l
       = fisher_yates test_draws i (S k) (swap l (S i) j) /\
       (j <= S i)%nat) /\
    (forall i q j, 0 <= q -> 0 <= j <= Z.of_nat i ->
       Z.rem (q * (Z.of_nat i + 1) + j) (Z.of_nat i + 1) = j).
Proof.
  apply (shuffle_string_permutation test_draws).
  - intros k. unfold test_draws. lia.
  - lia.
  - vm_compute. lia.
Defined.

Lemma generate_password_boundary_witness :
  (exists buf' u l d,
     generate_password test_draws test_buffer 3 0 0%nat
     = Some (buf', (0 + 3 + 2)%nat) /\
     u = pick UPPERCASE (test_draws 0) /\ In u (c_string UPPERCASE) /\
     l = pick LOWERCASE (test_draws (0 + 1)) /\ In l (c_string LOWERCASE) /\
     d = pick NUMBERS (test_draws (0 + 2)) /\ In d (c_string NUMBERS) /\
     Permutation (c_string buf') [u; l; d]) /\
  (exists buf' u l d s,
     generate_password test_draws test_buffer 4 1 0%nat
     = Some (buf', (0 + 4 + 3)%nat) /\
     u = pick UPPERCASE (test_draws 0) /\ In u (c_string UPPERCASE) /\
     l = pick LOWERCASE (test_draws (0 + 1)) /\ In l (c_string LOWERCASE) /\
     d = pick NUMBERS (test_draws (0 + 2)) /\ In d (c_string NUMBERS) /\
     s = pick SPECIAL (test_draws (0 + 3)) /\ In s (c_string SPECIAL) /\
     Permutation (c_string buf') [u; l; d; s]).
Proof.
  apply (generate_password_boundary test_draws).
  - intros k. unfold test_draws. lia.
  - lia.
  - vm_compute. lia.
Defined.

Lemma fill_loop_slots_witness :
  fill_loop test_draws 0 5 (Z.of_nat (List.length (list_ascii_of_string "Ab3")))
    (list_ascii_of_string "Ab3" ++ test_buffer) 3%nat
  = Some (list_ascii_of_string "Ab3" ++ fill_chars test_draws 0 3 5 ++
          drop 5 test_buffer, (3 + 2 * 5)%nat) /\
  List.length (enabled_classes 0) = (if 0 =? 0 then 3%nat else 4%nat) /\
  (forall t, (t < 5)%nat ->
     let class := class_index 0 (test_draws (3 + 2 * t)) in
     (class < List.length (enabled_classes 0))%nat /\
     nth t (fill_chars test_draws 0 3 5) zero
     = pick (nth class (enabled_classes 0) []) (test_draws (3 + 2 * t + 1))) /\
  (forall q class,
     0 <= q ->
     (class < List.length (enabled_classes 0))%nat ->
     class_index 0
       (q * Z.of_nat (List.length (enabled_classes 0)) + Z.of_nat class)
     = class) /\
  (0 = 0 ->
   ~ In SPECIAL (enabled_classes 0) /\
   Forall (fun c => ~ In c (c_string SPECIAL)) (fill_chars test_draws 0 3 5)).
Proof.
  apply (fill_loop_slots test_draws).
  - intros k. unfold test_draws. lia.
  - vm_compute. lia.
Defined.

Lemma generate_password_no_lowercase_o_witness :
  exists buf' n',
    generate_password test_draws test_buffer 20 0 0%nat = Some (buf', n') /\
    Forall (fun c => c <> "o"%char) (c_string buf') /\
    ~ In "o"%char LOWERCASE /\
    ~ In "o"%char similar_characters /\
    (forall len special count, exists text,
       banner len special count
       = text +:+ "Excluded similar characters: 0, O, I, l, 1" +:+ nl +:+ nl).
Proof.
  apply (generate_password_no_lowercase_o test_draws).
  - intros k. unfold test_draws. lia.
  - unfold valid_policy. lia.
  - vm_compute. lia.
Defined.

Lemma main_special_needs_length_4_witness :
  main test_draws atoi_decimal test_uninit "passgen" [opt_s; opt_l "3"]
  = Some (Outcome 1 EmptyString
            ("Error: Password length must be at least 4 when using special characters"
             +:+ nl)).
Proof.
  apply (main_special_needs_length_4 test_draws).
  - intros k. unfold test_draws. lia.
  - vm_compute. reflexivity.
  - simpl. auto.
  - vm_compute. reflexivity.
Defined.

Lemma main_prints_count_passwords_witness :
  3 <= 10 <= 128 /\ 1 <= 5 <= 100 /\
  exists pws rest,
    main test_draws atoi_decimal test_uninit "passgen" [opt_c "5"; opt_l "10"]
    = Some (Outcome 0
              ("Generated password" +:+
               (if 1 <? 5 then "s" else EmptyString) +:+ ":" +:+ nl +:+
               rest +:+ numbered_lines 1 pws)
              EmptyString) /\
    banner 10 (special_requested [opt_c "5"; opt_l "10"]) 5
    = "Generated password" +:+
      (if 1 <? 5 then "s" else EmptyString) +:+ ":" +:+ nl +:+ rest /\
    List.length pws = Z.to_nat 5 /\
    Forall (fun p => List.length p = Z.to_nat 10 /\
                     ~ In (ascii_of_nat 10) p) pws.
Proof.
  apply (main_prints_count_passwords test_draws).
  - intros k. unfold test_draws. lia.
  - vm_compute. reflexivity.
  - vm_compute. reflexivity.
  - vm_compute. reflexivity.
  - simpl. intros [H|[H|[]]]; discriminate H.
Defined.

(** ** More on the command line: the order of the checks *)

Section OptionLoop.

Variable draws : nat -> Z.
Hypothesis draws_nonneg : forall n, 0 <= draws n.
Variable atoi : string -> Z.
Variable uninit : nat -> ascii.

(** Accepted options only update the three variables. *)
Lemma parse_options_app (program_name : string)
  (pre rest : list getopt_result) :
  forallb (valid_option atoi) pre = true ->
  forall length include_special count,
  parse_options atoi program_name (pre ++ rest) length include_special count
  = parse_options atoi program_name rest
      (fold_left (fun len o =>
                    match o with opt_l optarg => atoi optarg | _ => len end)
         pre length)
      (if existsb is_opt_s pre then 1 else include_special)
      (fold_left (fun cnt o =>
                    match o with opt_c optarg => atoi optarg | _ => cnt end)
         pre count).
Proof.
  induction pre as [|o pre IH]; intros Hv length include_special count;
    [reflexivity|].
  cbn [forallb] in Hv. apply andb_true_iff in Hv as [Ho Hv].
  destruct o; cbn [valid_option] in Ho; try discriminate Ho;
    cbn [app parse_options fold_left existsb is_opt_s orb].
  - destruct (Z.ltb_spec (atoi optarg) 3); [lia|].
    destruct (Z.ltb_spec 128 (atoi optarg)); [lia|].
    now rewrite IH.
  - rewrite IH by exact Hv. now destruct (existsb is_opt_s pre).
  - destruct (Z.ltb_spec (atoi optarg) 1); [lia|].
    destruct (Z.ltb_spec 100 (atoi optarg)); [lia|].
    now rewrite IH.
Qed.

(** The option loop keeps [length] in [3,128] and [count] in [1,100]. *)
Lemma parse_options_ranges (program_name : string)
  (opts : list getopt_result) :
  forall length include_special count length' include_special' count',
  3 <= length <= 128 -> 1 <= count <= 100 ->
  parse_options atoi program_name opts length include_special count
  = inr (length', include_special', count') ->
  3 <= length' <= 128 /\ 1 <= count' <= 100.
Proof.
  induction opts as [|o opts IH];
    intros length include_special count length' include_special' count'
      HL HC Hp.
  - cbn [parse_options] in Hp. injection Hp as <- _ <-. auto.
  - destruct o; cbn [parse_options] in Hp; try discriminate Hp.
    + destruct (Z.ltb_spec (atoi optarg) 3); [discriminate Hp|].
      destruct (Z.ltb_spec 128 (atoi optarg)); [discriminate Hp|].
      apply IH in Hp; [exact Hp|lia|exact HC].
    + apply IH in Hp; [exact Hp|exact HL|exact HC].
    + destruct (Z.ltb_spec (atoi optarg) 1); [discriminate Hp|].
      destruct (Z.ltb_spec 100 (atoi optarg)); [discriminate Hp|].
      apply IH in Hp; [exact Hp|exact HL|lia].
Qed.


End OptionLoop.

Section MainOutcomes.

Variable draws : nat -> Z.
Hypothesis draws_nonneg : forall n, 0 <= draws n.
Variable atoi : string -> Z.
Variable uninit : nat -> ascii.


(** X2: [-h] wins over everything that follows it and over the cross-flag
    check: after options that the loop accepts, it prints the usage text on
    standard output and exits with code 0, even when [-s] was given with
    length 3 or when invalid options follow. *)
Theorem main_help_first (program_name : string)
  (pre rest : list getopt_result) :
  forallb (valid_option atoi) pre = true ->
  main draws atoi uninit program_name (pre ++ opt_h :: rest)
  = Some (Outcome 0 (print_usage program_name) EmptyString).
Proof.
  intros Hv. unfold main. now rewrite (parse_options_app atoi _ _ _ Hv).
Qed.


(** X4: a [-l] whose value is below 3 or above 128, after options that the
    loop accepts, ends the program at once with exit code 1, its own message
    on standard error and nothing on standard output; what follows on the
    command line is not looked at. *)
Theorem main_length_out_of_range (program_name : string)
  (pre rest : list getopt_result) (optarg : string) :
  forallb (valid_option atoi) pre = true ->
  (atoi optarg < 3 ->
   main draws atoi uninit program_name (pre ++ opt_l optarg :: rest)
   = Some (Outcome 1 EmptyString
             ("Error: Password length must be at least 3" +:+ nl))) /\
  (128 < atoi optarg ->
   main draws atoi uninit program_name (pre ++ opt_l optarg :: rest)
   = Some (Outcome 1 EmptyString
             ("Error: Password length cannot exceed 128" +:+ nl))).
Proof.
  intros Hv. unfold main. rewrite (parse_options_app atoi _ _ _ Hv).
  cbn [parse_options]. split; intros H.
  - destruct (Z.ltb_spec (atoi optarg) 3); [reflexivity|lia].
  - destruct (Z.ltb_spec (atoi optarg) 3); [lia|].
    destruct (Z.ltb_spec 128 (atoi optarg)); [reflexivity|lia].
Qed.

(** X5: a [-c] whose value is below 1 or above 100, after options that the
    loop accepts, ends the program at once with exit code 1, its own message
    on standard error and nothing on standard output. *)
Theorem main_count_out_of_range (program_name : string)
  (pre rest : list getopt_result) (optarg : string) :
  forallb (valid_option atoi) pre = true ->
  (atoi optarg < 1 ->
   main draws atoi uninit program_name (pre ++ opt_c optarg :: rest)
   = Some (Outcome 1 EmptyString
             ("Error: Count must be at least 1" +:+ nl))) /\
  (100 < atoi optarg ->
   main draws atoi uninit program_name (pre ++ opt_c optarg :: rest)
   = Some (Outcome 1 EmptyString
             ("Error: Count cannot exceed 100" +:+ nl))).
Proof.
  intros Hv. unfold main. rewrite (parse_options_app atoi _ _ _ Hv).
  cbn [parse_options]. split; intros H.
  - destruct (Z.ltb_spec (atoi optarg) 1); [reflexivity|lia].
  - destruct (Z.ltb_spec (atoi optarg) 1); [lia|].
    destruct (Z.ltb_spec 100 (atoi optarg)); [reflexivity|lia].
Qed.

(** X6: on command lines whose options the loop accepts, only the last [-l],
    the last [-c] and the presence of [-s] matter: two such command lines
    with the same effective length, count and special flag give the same
    exit code and the same output, whatever the order and the repetitions of
    their options. *)
Theorem main_last_option_wins (program_name : string)
  (opts1 opts2 : list getopt_result) :
  forallb (valid_option atoi) opts1 = true ->
  forallb (valid_option atoi) opts2 = true ->
  effective_length atoi opts1 = effective_length atoi opts2 ->
  effective_count atoi opts1 = effective_count atoi opts2 ->
  special_requested opts1 = special_requested opts2 ->
  main draws atoi uninit program_name opts1
  = main draws atoi uninit program_name opts2.
Proof.
  intros Hv1 Hv2 HL HC Hs.
  rewrite (main_valid_options draws draws_nonneg atoi uninit _ _ Hv1).
  rewrite (main_valid_options draws draws_nonneg atoi uninit _ _ Hv2).
  now rewrite HL, HC, Hs.
Qed.

End MainOutcomes.

(** ** More on the generator: the bounds of the arrays *)

Section Bounds.

Variable draws : nat -> Z.
Hypothesis draws_nonneg : forall n, 0 <= draws n.

Lemma bind_None {A B : Type} (m : M A) (k : A -> M B) n :
  m n = None -> bind m k n = None.
Proof. intros H. unfold bind. now rewrite H. Qed.


Lemma store_negative (a : list ascii) (i : Z) c n :
  i < 0 -> store a i c n = None.
Proof.
  intros H. unfold store. destruct (Z.leb_spec 0 i); [lia|reflexivity].
Qed.




End Bounds.

Section BufferSize.

Variable draws : nat -> Z.
Hypothesis draws_nonneg : forall n, 0 <= draws n.

(** A fill slot is two draws and the store of the chosen character. *)
Lemma fill_slot_store (include_special : Z) (password : list ascii) (i : Z)
  (n : nat) :
  fill_slot draws include_special password i n
  = store password i (fill_char draws include_special n) (n + 2)%nat.
Proof.
  unfold fill_slot, fill_char, class_index, enabled_classes.
  replace (n + 2)%nat with (S (S n)) by lia.
  replace (n + 1)%nat with (S n) by lia.
  unfold bind at 1.
  destruct (Z.eqb_spec include_special 0) as [Hs|Hs];
    cbn [List.length app negb]; unfold bind at 1, rand, c_rem;
    cbn [Z.eqb]; unfold ret at 1.
  - pose proof (Z.rem_bound_pos (draws n) 3 (draws_nonneg n) eq_refl) as Hb.
    change (Z.of_nat 3) with 3.
    assert (Z.rem (draws n) 3 = 0 \/ Z.rem (draws n) 3 = 1 \/
            Z.rem (draws n) 3 = 2) as [-> | [-> | ->]] by lia;
      cbn [Z.to_nat Pos.to_nat Pos.iter_op Nat.add nth].
    + now rewrite (bind_Some _ _ _ _ _ (get_UPPERCASE draws draws_nonneg (S n))).
    + now rewrite (bind_Some _ _ _ _ _ (get_LOWERCASE draws draws_nonneg (S n))).
    + now rewrite (bind_Some _ _ _ _ _ (get_NUMBERS draws draws_nonneg (S n))).
  - pose proof (Z.rem_bound_pos (draws n) 4 (draws_nonneg n) eq_refl) as Hb.
    change (Z.of_nat 4) with 4.
    assert (Z.rem (draws n) 4 = 0 \/ Z.rem (draws n) 4 = 1 \/
            Z.rem (draws n) 4 = 2 \/ Z.rem (draws n) 4 = 3)
      as [-> | [-> | [-> | ->]]] by lia;
      cbn [Z.to_nat Pos.to_nat Pos.iter_op Nat.add nth].
    + now rewrite (bind_Some _ _ _ _ _ (get_UPPERCASE draws draws_nonneg (S n))).
    + now rewrite (bind_Some _ _ _ _ _ (get_LOWERCASE draws draws_nonneg (S n))).
    + now rewrite (bind_Some _ _ _ _ _ (get_NUMBERS draws draws_nonneg (S n))).
    + now rewrite (bind_Some _ _ _ _ _ (get_SPECIAL draws draws_nonneg (S n))).
Qed.

(** The fill loop runs off the array when it has more slots to fill than the
    array has left. *)
Lemma fill_loop_overflow (include_special : Z) (k : nat) :
  forall (g rest : list ascii) (n : nat),
  (List.length rest < k)%nat ->
  fill_loop draws include_special k (Z.of_nat (List.length g)) (g ++ rest) n
  = None.
Proof.
  induction k as [|k IH]; intros g rest n Hk; [lia|].
  cbn [fill_loop]. destruct rest as [|r rest].
  - apply bind_None. rewrite fill_slot_store.
    apply store_out_of_bounds. rewrite app_nil_r. lia.
  - simpl in Hk.
    erewrite bind_Some;
      [|apply fill_slot_eq; [exact draws_nonneg|rewrite length_app; simpl; lia]].
    rewrite insert_at_length.
    replace (Z.of_nat (List.length g) + 1)
      with (Z.of_nat (List.length (g ++ [fill_char draws include_special n])))
      by (rewrite length_app; simpl; lia).
    rewrite (cons_middle _ g rest), app_assoc.
    apply IH. lia.
Qed.

(** After the guaranteed characters, an array without room for [length]
    characters and the NUL is overrun: by the fill loop, or by the final
    NUL. *)
Lemma fill_shuffle_terminate_overflow (g rest : list ascii)
  (length include_special : Z) (m : nat) :
  (List.length g + List.length rest <= Z.to_nat length)%nat ->
  (password <- fill_loop draws include_special
                 (Z.to_nat (length - Z.of_nat (List.length g)))
                 (Z.of_nat (List.length g)) (g ++ rest) ;;
   password <- shuffle_string draws password length ;;
   store password length zero) m = None.
Proof.
  intros Hlen.
  set (k := Z.to_nat (length - Z.of_nat (List.length g))).
  destruct (Nat.lt_ge_cases (List.length rest) k) as [Hk|Hk].
  - apply bind_None, fill_loop_overflow. exact Hk.
  - assert (k = List.length rest) as Hkr by lia.
    erewrite bind_Some; [|apply fill_loop_eq; [exact draws_nonneg|lia]].
    rewrite Hkr, drop_all, app_nil_r.
    set (pre := g ++ fill_chars draws include_special m (List.length rest)).
    assert (List.length pre = Z.to_nat length) as Hpre
      by (unfold pre; rewrite length_app, fill_chars_length; lia).
    destruct (Z.le_gt_cases length 1) as [H1|H1].
    + unfold shuffle_string.
      replace (Z.to_nat (length - 1)) with O by lia.
      cbn [shuffle_loop]. unfold bind, ret.
      destruct (Z.le_gt_cases 0 length);
        [apply store_out_of_bounds; lia|apply store_negative; lia].
    + unfold shuffle_string.
      erewrite bind_Some; [|apply shuffle_loop_eq; [exact draws_nonneg|lia]].
      apply store_out_of_bounds. rewrite fisher_yates_length. lia.
Qed.

End BufferSize.

Section BufferSizeTheorems.

Variable draws : nat -> Z.
Hypothesis draws_nonneg : forall n, 0 <= draws n.

Lemma generate_password_overrun (buf : list ascii)
  (length include_special : Z) (n : nat) :
  ~ ((3 <= List.length buf)%nat /\ 0 <= length < Z.of_nat (List.length buf)) ->
  generate_password draws buf length include_special n = None.
Proof.
  intros Hsmall. unfold generate_password.
  rewrite (bind_Some _ _ _ _ _ (get_UPPERCASE draws draws_nonneg n)).
  destruct buf as [|b0 buf];
    [apply bind_None, store_out_of_bounds; simpl; lia|].
  erewrite bind_Some; [|apply store_eq_Z; simpl; lia].
  rewrite (bind_Some _ _ _ _ _ (get_LOWERCASE draws draws_nonneg (S n))).
  destruct buf as [|b1 buf];
    [apply bind_None, store_out_of_bounds; simpl; lia|].
  erewrite bind_Some; [|apply store_eq_Z; simpl; lia].
  rewrite (bind_Some _ _ _ _ _ (get_NUMBERS draws draws_nonneg (S (S n)))).
  destruct buf as [|b2 rest];
    [apply bind_None, store_out_of_bounds; simpl; lia|].
  erewrite bind_Some; [|apply store_eq_Z; simpl; lia].
  cbn [Z.to_nat Z.add Pos.to_nat Pos.iter_op Nat.add Pos.add Pos.succ
       insert list_insert].
  cbn [List.length] in Hsmall.
  fold (special_placed length include_special).
  destruct (special_placed length include_special) eqn:Hg.
  - assert (4 <= length) as H4 by (unfold special_placed in Hg; lia).
    unfold bind at 1.
    rewrite (bind_Some _ _ _ _ _
               (get_SPECIAL draws draws_nonneg (S (S (S n))))).
    destruct rest as [|b3 rest];
      [erewrite bind_None;
         [reflexivity|apply store_out_of_bounds; simpl; lia]|].
    erewrite bind_Some; [|apply store_eq_Z; simpl; lia].
    unfold ret at 1.
    apply (fill_shuffle_terminate_overflow draws draws_nonneg
             [pick UPPERCASE (draws n); pick LOWERCASE (draws (S n));
              pick NUMBERS (draws (S (S n)));
              pick SPECIAL (draws (S (S (S n))))] rest).
    cbn [List.length] in Hsmall |- *. lia.
  - unfold bind at 1. unfold ret at 1.
    destruct (Z.le_gt_cases 0 length) as [H0|H0].
    + apply (fill_shuffle_terminate_overflow draws draws_nonneg
               [pick UPPERCASE (draws n); pick LOWERCASE (draws (S n));
                pick NUMBERS (draws (S (S n)))] rest).
      cbn [List.length]. lia.
    + replace (Z.to_nat (length - (0 + 1 + 1 + 1))) with O by lia.
      cbn [fill_loop]. unfold bind at 1. unfold ret at 1.
      unfold shuffle_string.
      replace (Z.to_nat (length - 1)) with O by lia.
      cbn [shuffle_loop]. unfold bind, ret.
      apply store_negative. exact H0.
Qed.

(** X9: [generate_password] is defined exactly when the array has at least 3
    bytes and more than [length] bytes, [length] not being negative: the
    three guaranteed characters are written whatever [length] is, and the NUL
    goes to index [length].  The 129 bytes of [main] are what length 128
    needs. *)
Theorem generate_password_defined (buf : list ascii)
  (length include_special : Z) (n : nat) :
  generate_password draws buf length include_special n <> None <->
  (3 <= List.length buf)%nat /\ 0 <= length < Z.of_nat (List.length buf).
Proof.
  split.
  - intros Hdef.
    destruct (decide ((3 <= List.length buf)%nat /\
                      0 <= length < Z.of_nat (List.length buf)))
      as [H|H]; [exact H|].
    exfalso. apply Hdef. now apply generate_password_overrun.
  - intros [H3 HL].
    rewrite generate_password_run by (auto; lia). discriminate.
Qed.

(** X10: for a length of at least 3, [generate_password] changes the bytes 0
    to [length] of the array only: the array keeps its size and every byte
    after the NUL keeps its value. *)
Theorem generate_password_frame (buf : list ascii)
  (length include_special : Z) (n : nat) :
  3 <= length -> (Z.to_nat length < List.length buf)%nat ->
  exists buf' n',
    generate_password draws buf length include_special n = Some (buf', n') /\
    List.length buf' = List.length buf /\
    drop (S (Z.to_nat length)) buf' = drop (S (Z.to_nat length)) buf.
Proof.
  intros HL Hbuf.
  pose proof (password_of_length draws length include_special n) as Hpw.
  assert (List.length (unshuffled draws length include_special n)
          = Z.to_nat length) as Hun.
  { rewrite unshuffled_length.
    destruct (special_placed length include_special) eqn:Hg;
      [unfold special_placed in Hg|]; lia. }
  eexists _, _. split; [apply generate_password_run; auto; lia|].
  set (pw := password_of draws length include_special n) in *.
  set (un := unshuffled draws length include_special n) in *.
  clearbody pw un. rewrite Hun.
  assert (drop (S (Z.to_nat length)) (un ++ drop (Z.to_nat length) buf)
          = drop (S (Z.to_nat length)) buf) as Htail.
  { rewrite drop_app_ge by lia. rewrite Hun, drop_drop. f_equal. lia. }
  rewrite Htail. split.
  - rewrite length_app. cbn [List.length]. rewrite length_drop. lia.
  - rewrite drop_app_ge by lia. rewrite Hpw.
    replace (S (Z.to_nat length) - Z.to_nat length)%nat with 1%nat by lia.
    reflexivity.
Qed.

End BufferSizeTheorems.

(** ** More on the generator: the draws it reads *)

Section TwoStreams.

Variables draws1 draws2 : nat -> Z.
Hypothesis draws1_nonneg : forall n, 0 <= draws1 n.
Hypothesis draws2_nonneg : forall n, 0 <= draws2 n.







End TwoStreams.

(** ** More on the character sets *)

Lemma In_all_ascii (c : ascii) : In c all_ascii.
Proof.
  unfold all_ascii. apply in_map_iff. exists (nat_of_ascii c).
  split; [apply ascii_nat_embedding|].
  apply in_seq. pose proof (nat_ascii_bounded c). lia.
Qed.

Lemma all_ascii_agree (P Q : ascii -> bool) :
  forallb (fun c => Bool.eqb (P c) (Q c)) all_ascii = true ->
  forall c, P c = Q c.
Proof.
  intros H c. rewrite forallb_forall in H.
  apply Bool.eqb_prop, H, In_all_ascii.
Qed.

Lemma existsb_eqb_In (c : ascii) (l : list ascii) :
  existsb (Ascii.eqb c) l = true <-> In c l.
Proof.
  rewrite existsb_exists. split.
  - intros [x [Hx He]]. apply Ascii.eqb_eq in He. now subst.
  - intros H. exists c. split; [exact H|apply Ascii.eqb_refl].
Qed.

Lemma alphabet_forallb (P : ascii -> bool) (include_special : Z) (x : ascii) :
  forallb P (concat (map c_string [UPPERCASE; LOWERCASE; NUMBERS; SPECIAL]))
  = true ->
  In x (alphabet include_special) -> P x = true.
Proof.
  intros Hall Hx. rewrite forallb_forall in Hall. apply Hall.
  unfold alphabet in Hx. apply in_concat in Hx as [l [Hl Hx]].
  apply in_map_iff in Hl as [cs [<- Hcs]].
  apply in_concat. exists (c_string cs). split; [|exact Hx].
  apply in_map, enabled_classes_among with include_special. exact Hcs.
Qed.

(** X12: the character sets leave out the similar characters and nothing
    else of their ranges, except the lowercase o: UPPERCASE is A to Z without
    I and O, LOWERCASE is a to z without l and o, NUMBERS is 0 to 9 without 0
    and 1. *)
Theorem charsets_exact (c : ascii) :
  (In c (c_string UPPERCASE) <->
   between "A" "Z" c = true /\ c <> "I"%char /\ c <> "O"%char) /\
  (In c (c_string LOWERCASE) <->
   between "a" "z" c = true /\ c <> "l"%char /\ c <> "o"%char) /\
  (In c (c_string NUMBERS) <->
   between "0" "9" c = true /\ c <> "0"%char /\ c <> "1"%char).
Proof.
  assert (forall (cs : list ascii) (lo hi x y : ascii),
            forallb (fun c => Bool.eqb (existsb (Ascii.eqb c) (c_string cs))
                       (between lo hi c && negb (Ascii.eqb c x)
                        && negb (Ascii.eqb c y))) all_ascii = true ->
            In c (c_string cs) <->
            between lo hi c = true /\ c <> x /\ c <> y) as Hgen.
  { intros cs lo hi x y Hall.
    rewrite <- existsb_eqb_In.
    rewrite (all_ascii_agree _ _ Hall c).
    rewrite !andb_true_iff, !negb_true_iff.
    rewrite <- !Ascii.eqb_neq. tauto. }
  split; [|split]; apply Hgen; vm_compute; reflexivity.
Qed.

(** X13: the four character sets are pairwise disjoint and none repeats a
    character: 56 distinct characters without special characters, 82 with
    them. *)
Theorem alphabet_distinct (include_special : Z) :
  NoDup (alphabet include_special) /\
  List.length (alphabet include_special)
  = (if include_special =? 0 then 56%nat else 82%nat).
Proof.
  unfold alphabet, enabled_classes.
  destruct (include_special =? 0);
    (split; [apply (bool_decide_eq_true_1 (NoDup _)); vm_compute; reflexivity
            |reflexivity]).
Qed.

(** ** More on the generator: what the password depends on *)

Section Independence.

Variable draws : nat -> Z.
Hypothesis draws_nonneg : forall n, 0 <= draws n.
Variable atoi : string -> Z.

(** X14: every character of a generated password is a printable character
    other than the space (codes 33 to 126), whatever the policy, as soon as
    the array is large enough. *)
Theorem generate_password_printable (buf : list ascii)
  (length include_special : Z) (n : nat) :
  (3 <= List.length buf)%nat -> 0 <= length < Z.of_nat (List.length buf) ->
  exists buf' n',
    generate_password draws buf length include_special n = Some (buf', n') /\
    Forall (fun c => printable c = true) (c_string buf').
Proof.
  intros H3 HL.
  destruct (generate_password_string draws draws_nonneg buf length
              include_special n) as (buf' & Hrun & _ & Hstr & _); [lia..|].
  exists buf', (n + draws_used length include_special)%nat.
  split; [exact Hrun|]. rewrite Hstr.
  eapply List.Forall_impl; [|apply password_of_In; exact draws_nonneg].
  intros c Hc. apply (alphabet_forallb printable include_special c);
    [vm_compute; reflexivity|exact Hc].
Qed.

(** X15: the password does not depend on what the array held before the
    call: on two arrays that are large enough, [generate_password] leaves the
    same string and makes the same number of calls of [rand()]. *)
Theorem generate_password_ignores_buffer (buf1 buf2 : list ascii)
  (length include_special : Z) (n : nat) :
  (3 <= List.length buf1)%nat -> 0 <= length < Z.of_nat (List.length buf1) ->
  (3 <= List.length buf2)%nat -> 0 <= length < Z.of_nat (List.length buf2) ->
  exists buf1' buf2' n',
    generate_password draws buf1 length include_special n
    = Some (buf1', n') /\
    generate_password draws buf2 length include_special n
    = Some (buf2', n') /\
    c_string buf1' = c_string buf2'.
Proof.
  intros H31 HL1 H32 HL2.
  destruct (generate_password_string draws draws_nonneg buf1 length
              include_special n) as (buf1' & Hrun1 & _ & Hstr1 & _); [lia..|].
  destruct (generate_password_string draws draws_nonneg buf2 length
              include_special n) as (buf2' & Hrun2 & _ & Hstr2 & _); [lia..|].
  exists buf1', buf2', (n + draws_used length include_special)%nat.
  split; [exact Hrun1|]. split; [exact Hrun2|]. now rewrite Hstr1, Hstr2.
Qed.

(** X16: the indeterminate initial contents of the array [password] never
    reach the output: whatever the options, two runs of [main] that differ
    only in these contents end with the same exit code and the same text on
    both streams. *)
Theorem main_ignores_uninitialised (uninit1 uninit2 : nat -> ascii)
  (program_name : string) (opts : list getopt_result) :
  main draws atoi uninit1 program_name opts
  = main draws atoi uninit2 program_name opts.
Proof.
  unfold main.
  destruct (parse_options atoi program_name opts 12 0 1)
    as [o|[[length include_special] count]] eqn:Hp; [reflexivity|].
  apply parse_options_ranges in Hp as [HL HC]; [|lia..].
  destruct (negb (include_special =? 0) && (length <? 4)); [reflexivity|].
  rewrite !(generate_loop_eq draws draws_nonneg length include_special
              (Z.to_nat count))
    by (try rewrite length_map, length_seq; lia).
  reflexivity.
Qed.

End Independence.

(** ** The additional properties on concrete runs *)


Lemma main_help_first_witness :
  main test_draws atoi_decimal test_uninit "passgen"
    ([opt_s; opt_l "3"] ++ opt_h :: [opt_l "2"])
  = Some (Outcome 0 (print_usage "passgen") EmptyString).
Proof.
  apply (main_help_first test_draws atoi_decimal test_uninit).
  vm_compute. reflexivity.
Defined.


Lemma main_length_out_of_range_witness :
  (atoi_decimal "2" < 3 ->
   main test_draws atoi_decimal test_uninit "passgen"
     ([opt_s] ++ opt_l "2" :: [opt_h])
   = Some (Outcome 1 EmptyString
             ("Error: Password length must be at least 3" +:+ nl))) /\
  (128 < atoi_decimal "2" ->
   main test_draws atoi_decimal test_uninit "passgen"
     ([opt_s] ++ opt_l "2" :: [opt_h])
   = Some (Outcome 1 EmptyString
             ("Error: Password length cannot exceed 128" +:+ nl))).
Proof.
  apply (main_length_out_of_range test_draws atoi_decimal test_uninit).
  vm_compute. reflexivity.
Defined.

Lemma main_count_out_of_range_witness :
  (atoi_decimal "101" < 1 ->
   main test_draws atoi_decimal test_uninit "passgen"
     ([opt_l "10"] ++ opt_c "101" :: [])
   = Some (Outcome 1 EmptyString
             ("Error: Count must be at least 1" +:+ nl))) /\
  (100 < atoi_decimal "101" ->
   main test_draws atoi_decimal test_uninit "passgen"
     ([opt_l "10"] ++ opt_c "101" :: [])
   = Some (Outcome 1 EmptyString
             ("Error: Count cannot exceed 100" +:+ nl))).
Proof.
  apply (main_count_out_of_range test_draws atoi_decimal test_uninit).
  vm_compute. reflexivity.
Defined.

Lemma main_last_option_wins_witness :
  main test_draws atoi_decimal test_uninit "passgen"
    [opt_l "5"; opt_s; opt_l "9"; opt_c "2"; opt_s]
  = main test_draws atoi_decimal test_uninit "passgen"
      [opt_c "7"; opt_c "2"; opt_s; opt_l "9"].
Proof.
  apply (main_last_option_wins test_draws).
  - intros k. unfold test_draws. lia.
  - vm_compute. reflexivity.
  - vm_compute. reflexivity.
  - vm_compute. reflexivity.
  - vm_compute. reflexivity.
  - vm_compute. reflexivity.
Defined.



Lemma generate_password_defined_witness :
  generate_password test_draws test_buffer 129 0 0%nat <> None <->
  (3 <= List.length test_buffer)%nat /\
  0 <= 129 < Z.of_nat (List.length test_buffer).
Proof.
  apply (generate_password_defined test_draws).
  intros k. unfold test_draws. lia.
Defined.

Lemma generate_password_frame_witness :
  exists buf' n',
    generate_password test_draws test_buffer 8 1 0%nat = Some (buf', n') /\
    List.length buf' = List.length test_buffer /\
    drop (S (Z.to_nat 8)) buf' = drop (S (Z.to_nat 8)) test_buffer.
Proof.
  apply (generate_password_frame test_draws).
  - intros k. unfold test_draws. lia.
  - lia.
  - vm_compute. lia.
Defined.


Lemma generate_password_printable_witness :
  exists buf' n',
    generate_password test_draws test_buffer 24 1 0%nat = Some (buf', n') /\
    Forall (fun c => printable c = true) (c_string buf').
Proof.
  apply (generate_password_printable test_draws).
  - intros k. unfold test_draws. lia.
  - vm_compute. lia.
  - vm_compute. split; [discriminate|reflexivity].
Defined.

Lemma generate_password_ignores_buffer_witness :
  exists buf1' buf2' n',
    generate_password test_draws test_buffer 6 0 7%nat = Some (buf1', n') /\
    generate_password test_draws (list_ascii_of_string "0123456789") 6 0
      7%nat = Some (buf2', n') /\
    c_string buf1' = c_string buf2'.
Proof.
  apply (generate_password_ignores_buffer test_draws).
  - intros k. unfold test_draws. lia.
  - vm_compute. lia.
  - vm_compute. split; [discriminate|reflexivity].
  - vm_compute. lia.
  - vm_compute. split; [discriminate|reflexivity].
Defined.

Lemma main_ignores_uninitialised_witness :
  main test_draws atoi_decimal test_uninit "passgen" [opt_l "8"; opt_c "3"]
  = main test_draws atoi_decimal test_uninit2 "passgen"
      [opt_l "8"; opt_c "3"].
Proof.
  apply (main_ignores_uninitialised test_draws).
  intros k. unfold test_draws. lia.
Defined.

(** ** More on the program: what every printed password satisfies *)

Section PrintedPasswords.

Variable draws : nat -> Z.
Hypothesis draws_nonneg : forall n, 0 <= draws n.
Variable atoi : string -> Z.
Variable uninit : nat -> ascii.



(** X18: below length 3 the guaranteed characters are written all the same
    and the string is cut: [generate_password] leaves a permutation of the
    first [length] of them, so the empty string for length 0, the UPPERCASE
    character alone for length 1, the UPPERCASE and the LOWERCASE one for
    length 2, never a digit or a special character. *)
Theorem generate_password_short (buf : list ascii)
  (length include_special : Z) (n : nat) :
  0 <= length < 3 -> (3 <= List.length buf)%nat ->
  exists buf' n',
    generate_password draws buf length include_special n = Some (buf', n') /\
    Permutation (c_string buf')
      (take (Z.to_nat length)
         [pick UPPERCASE (draws n); pick LOWERCASE (draws (n + 1));
          pick NUMBERS (draws (n + 2))]).
Proof.
  intros HL H3.
  destruct (generate_password_string draws draws_nonneg buf length
              include_special n) as (buf' & Hrun & _ & Hstr & _); [lia..|].
  exists buf', (n + draws_used length include_special)%nat.
  split; [exact Hrun|]. rewrite Hstr, password_of_Permutation.
  unfold unshuffled.
  assert (special_placed length include_special = false) as ->
    by (unfold special_placed; destruct (Z.leb_spec 4 length);
        [lia|apply andb_false_r]).
  unfold guaranteed. cbn [app List.length].
  replace (Z.to_nat length - 3)%nat with O by lia.
  reflexivity.
Qed.

End PrintedPasswords.


Lemma generate_password_short_witness :
  exists buf' n',
    generate_password test_draws test_buffer 2 1 0%nat = Some (buf', n') /\
    Permutation (c_string buf')
      (take (Z.to_nat 2)
         [pick UPPERCASE (test_draws 0); pick LOWERCASE (test_draws (0 + 1));
          pick NUMBERS (test_draws (0 + 2))]).
Proof.
  apply (generate_password_short test_draws).
  - intros k. unfold test_draws. lia.
  - lia.
  - vm_compute. lia.
Defined.
